(** * ema-gaming: lobby coordinator and status query client

    A shallow embedding of the lobby handlers and of the game-server status
    query of [src/index.js], with the properties of the specification that
    concern them.

    - [JsMap]: the JavaScript [Map] the server keeps its users and games in;
    - [Lobby]: the socket handlers ([createGame], [joinGame], [leaveGame],
      [toggleReady], [updateGame], [disconnect]) as functions from the server
      state to the next state and the list of events passed to [io.emit];
    - [Query]: the probe datagram and the parser of the response of
      [queryGameServer];
    - [Channel], [Route]: how the promise of [queryGameServer] settles, and
      the HTTP route [/api/server-status/:ip/:port] around it;
    - [Startup]: [getFirebaseConfig].

    Objects are modelled at the shape the handlers read them at: a game has an
    [id], a [status] and an array of [participants]; a participant has a [uid]
    and an [isReady] flag; every other property is carried along in [props].
    The handlers run one at a time on the event loop, so each is a function. *)

From Stdlib Require Import List String Ascii ZArith NArith Lia Bool.
Import ListNotations.
Open Scope string_scope.
Open Scope list_scope.

(* ===================================================================== *)
(** * JavaScript [Map] with string keys *)
(* ===================================================================== *)

(** A [Map] keeps its entries in insertion order; [set] on a key that is
    present replaces the value where it stands, [set] on a new key appends.
    Iteration ([entries]) follows that order, which is the order the
    [disconnect] handler emits its events in. *)
Module JsMap.

Definition t (V : Type) : Type := list (string * V).

Section Operations.
Context {V : Type}.

Fixpoint get (m : t V) (k : string) : option V :=
  match m with
  | [] => None
  | (k', v) :: rest => if String.eqb k k' then Some v else get rest k
  end.

Fixpoint set (k : string) (v : V) (m : t V) : t V :=
  match m with
  | [] => [(k, v)]
  | (k', v') :: rest =>
      if String.eqb k k' then (k', v) :: rest else (k', v') :: set k v rest
  end.

Fixpoint delete (k : string) (m : t V) : t V :=
  match m with
  | [] => []
  | (k', v') :: rest =>
      if String.eqb k k' then rest else (k', v') :: delete k rest
  end.

Definition entries (m : t V) : list (string * V) := m.

Definition keys (m : t V) : list string := List.map fst m.

Definition has (m : t V) (k : string) : bool :=
  match get m k with Some _ => true | None => false end.

(** No key occurs twice: what a [Map] guarantees by construction. *)
Fixpoint distinct (ks : list string) : bool :=
  match ks with
  | [] => true
  | k :: rest => negb (existsb (String.eqb k) rest) && distinct rest
  end.

Definition wf (m : t V) : Prop := distinct (keys m) = true.

End Operations.

Definition empty {V : Type} : t V := [].

End JsMap.

(* ===================================================================== *)
(** * The lobby *)
(* ===================================================================== *)

Module Lobby.

(** The identity stored for a connection:
    [{ id: auth.uid, name: auth.displayName || 'Anonymous', email, avatar }]. *)
Record User : Type := mkUser {
  user_id : string;
  name : string;
  email : option string;
  avatar : option string
}.

(** The handshake data [socket.handshake.auth]. *)
Record Auth : Type := mkAuth {
  auth_uid : string;
  displayName : option string;
  auth_email : option string;
  photoURL : option string
}.

Record Participant : Type := mkParticipant {
  uid : string;
  isReady : bool;
  participant_props : list (string * string)
}.

Record Game : Type := mkGame {
  id : string;
  status : string;
  participants : list Participant;
  game_props : list (string * string)
}.

(** [{ ...p, isReady }] *)
Definition with_isReady (p : Participant) (r : bool) : Participant :=
  {| uid := uid p; isReady := r; participant_props := participant_props p |}.

(** [game.participants = ps] *)
Definition with_participants (game : Game) (ps : list Participant) : Game :=
  {| id := id game; status := status game; participants := ps;
     game_props := game_props game |}.

(** [game.status = st] *)
Definition with_status (game : Game) (st : string) : Game :=
  {| id := id game; status := st; participants := participants game;
     game_props := game_props game |}.

(** The events given to [io.emit], by name, with their payload. *)
Inductive Event : Type :=
| gameCreated (gameData : Game)
| playerJoined (gameId : string) (player : Participant)
| playerLeft (gameId playerId : string)
| playerReadyChanged (gameId playerId : string) (ready : bool)
| allPlayersReady (gameId : string)
| gameUpdated (game : Game).

(** The two module-level maps. *)
Record Server : Type := mkServer {
  connectedUsers : JsMap.t User;
  activeGames : JsMap.t Game
}.

Definition with_games (s : Server) (games : JsMap.t Game) : Server :=
  {| connectedUsers := connectedUsers s; activeGames := games |}.

Definition with_users (s : Server) (users : JsMap.t User) : Server :=
  {| connectedUsers := users; activeGames := activeGames s |}.

Definition initial : Server :=
  {| connectedUsers := JsMap.empty; activeGames := JsMap.empty |}.

(** A handler leaves the next state and the events it emitted, in order. *)
Definition Outcome : Type := Server * list Event.

(** [io.on('connection', ...)]: a handshake without a [uid] is dropped (the
    empty string is falsy), otherwise the identity is registered. *)
Definition connection (s : Server) (socket_id : string) (auth : option Auth)
  : Outcome :=
  match auth with
  | None => (s, [])
  | Some a =>
      if String.eqb (auth_uid a) "" then (s, [])
      else
        let user :=
          {| user_id := auth_uid a;
             name := match displayName a with
                     | Some n => if String.eqb n "" then "Anonymous" else n
                     | None => "Anonymous"
                     end;
             email := auth_email a;
             avatar := photoURL a |} in
        (with_users s (JsMap.set socket_id user (connectedUsers s)), [])
  end.

(** [socket.on('createGame', ...)] *)
Definition createGame (s : Server) (gameData : Game) : Outcome :=
  (with_games s (JsMap.set (id gameData) gameData (activeGames s)),
   [gameCreated gameData]).

(** [socket.on('joinGame', ...)] *)
Definition joinGame (s : Server) (gameId : string) (player : Participant)
  : Outcome :=
  match JsMap.get (activeGames s) gameId with
  | None => (s, [])
  | Some game =>
      let playerWithReady := with_isReady player false in
      let game := with_participants game (participants game ++ [playerWithReady]) in
      (with_games s (JsMap.set gameId game (activeGames s)),
       [playerJoined gameId playerWithReady])
  end.

(** [p => p.uid !== playerId] *)
Definition other_than (playerId : string) (p : Participant) : bool :=
  negb (String.eqb (uid p) playerId).

(** [socket.on('leaveGame', ...)] *)
Definition leaveGame (s : Server) (gameId playerId : string) : Outcome :=
  match JsMap.get (activeGames s) gameId with
  | None => (s, [])
  | Some game =>
      let game :=
        with_participants game (filter (other_than playerId) (participants game)) in
      (with_games s (JsMap.set gameId game (activeGames s)),
       [playerLeft gameId playerId])
  end.

(** [p => p.uid === playerId ? { ...p, isReady } : p] *)
Definition mark_ready (playerId : string) (ready : bool) (p : Participant)
  : Participant :=
  if String.eqb (uid p) playerId then with_isReady p ready else p.

(** [game.participants.every(p => p.isReady)] *)
Definition allReady (game : Game) : bool := forallb isReady (participants game).

(** [socket.on('toggleReady', ...)] *)
Definition toggleReady (s : Server) (gameId playerId : string) (ready : bool)
  : Outcome :=
  match JsMap.get (activeGames s) gameId with
  | None => (s, [])
  | Some game =>
      let game :=
        with_participants game (List.map (mark_ready playerId ready) (participants game)) in
      let s := with_games s (JsMap.set gameId game (activeGames s)) in
      let emitted := [playerReadyChanged gameId playerId ready] in
      if allReady game then (s, emitted ++ [allPlayersReady gameId])
      else (s, emitted)
  end.

(** [socket.on('updateGame', ...)]: the status is stored first, the check
    that guards the start of a game comes after it. *)
Definition updateGame (s : Server) (gameId st : string) : Outcome :=
  match JsMap.get (activeGames s) gameId with
  | None => (s, [])
  | Some game =>
      let game := with_status game st in
      let s := with_games s (JsMap.set gameId game (activeGames s)) in
      if String.eqb st "In Progress" then
        if negb (allReady game) then (s, [])
        else (s, [gameUpdated game])
      else (s, [gameUpdated game])
  end.

(** [game.participants.some(p => p.uid === user.id)] *)
Definition takes_part (userId : string) (game : Game) : bool :=
  existsb (fun p => String.eqb (uid p) userId) (participants game).

Definition without (userId : string) (game : Game) : Game :=
  with_participants game (filter (other_than userId) (participants game)).

(** One turn of the loop [for (const [gameId, game] of activeGames.entries())]
    of the [disconnect] handler. *)
Definition depart (userId : string) (acc : JsMap.t Game * list Event)
  (entry : string * Game) : JsMap.t Game * list Event :=
  let '(games, emitted) := acc in
  let '(gameId, game) := entry in
  if takes_part userId game then
    (JsMap.set gameId (without userId game) games,
     emitted ++ [playerLeft gameId userId])
  else acc.

(** [socket.on('disconnect', ...)].  The loop only re-sets keys that are
    present, so the entries it visits are those of the map it started from. *)
Definition disconnect (s : Server) (socket_id : string) : Outcome :=
  let user := JsMap.get (connectedUsers s) socket_id in
  let users := JsMap.delete socket_id (connectedUsers s) in
  match user with
  | None => (with_users s users, [])
  | Some user =>
      let '(games, emitted) :=
        fold_left (depart (user_id user)) (JsMap.entries (activeGames s))
                  (activeGames s, []) in
      ({| connectedUsers := users; activeGames := games |}, emitted)
  end.

(** The inbound events of one connection. *)
Inductive Inbound : Type :=
| Connect (auth : option Auth)
| CreateGame (gameData : Game)
| JoinGame (gameId : string) (player : Participant)
| LeaveGame (gameId playerId : string)
| ToggleReady (gameId playerId : string) (ready : bool)
| UpdateGame (gameId st : string)
| Disconnect.

Definition handle (s : Server) (socket_id : string) (e : Inbound) : Outcome :=
  match e with
  | Connect auth => connection s socket_id auth
  | CreateGame gameData => createGame s gameData
  | JoinGame gameId player => joinGame s gameId player
  | LeaveGame gameId playerId => leaveGame s gameId playerId
  | ToggleReady gameId playerId ready => toggleReady s gameId playerId ready
  | UpdateGame gameId st => updateGame s gameId st
  | Disconnect => disconnect s socket_id
  end.

(** A run of the event loop: the events of all connections, in arrival order. *)
Fixpoint run (s : Server) (trace : list (string * Inbound)) : Outcome :=
  match trace with
  | [] => (s, [])
  | (socket_id, e) :: rest =>
      let '(s1, out1) := handle s socket_id e in
      let '(s2, out2) := run s1 rest in
      (s2, out1 ++ out2)
  end.

End Lobby.

(* ===================================================================== *)
(** * The status query *)
(* ===================================================================== *)

Module Query.

(** Text is a [string] of code units; bytes and code units that are computed
    with are numbers in [N]. *)
Definition LF : ascii := "010"%char.
Definition backslash : ascii := "\"%char.

Definition code_units (s : string) : list N :=
  List.map N_of_ascii (list_ascii_of_string s).

(** ** The probe *)

(** The literal ['ÿÿÿÿgetstatus'] as it stands in the UTF-8 source file:
    each [ÿ] is the two bytes [C3 BF]. *)
Definition literal_bytes : list N :=
  [0xC3; 0xBF; 0xC3; 0xBF; 0xC3; 0xBF; 0xC3; 0xBF]%N ++ code_units "getstatus".

(** Reading UTF-8 source text into code units, for the one- and two-byte
    forms, which are all the literal has. *)
Fixpoint utf8_decode (bs : list N) : option (list N) :=
  match bs with
  | [] => Some []
  | b0 :: rest =>
      if (b0 <? 0x80)%N then option_map (cons b0) (utf8_decode rest)
      else if ((0xC2 <=? b0) && (b0 <=? 0xDF))%N then
        match rest with
        | b1 :: rest' =>
            if (N.land b1 0xC0 =? 0x80)%N then
              option_map
                (cons (N.lor (N.shiftl (N.land b0 0x1F) 6) (N.land b1 0x3F)))
                (utf8_decode rest')
            else None
        | [] => None
        end
      else None
  end.

(** The string value of the literal: four times U+00FF, then [getstatus]. *)
Definition literal : list N :=
  [0xFF; 0xFF; 0xFF; 0xFF]%N ++ code_units "getstatus".

(** [Buffer.from(s, 'binary')]: latin1 keeps the low byte of each code unit. *)
Definition Buffer_from_binary (s : list N) : list N :=
  List.map (fun cu => N.land cu 0xFF) s.

Record Datagram : Type := mkDatagram {
  payload : list N;
  to_port : N;
  to_address : string
}.

(** [client.send(msg, offset, length, port, address)] *)
Definition send (msg : list N) (offset len : nat) (port : N) (address : string)
  : Datagram :=
  {| payload := firstn len (skipn offset msg);
     to_port := port;
     to_address := address |}.

(** What [queryGameServer(ip, port)] sends. *)
Definition queryPacket : list N := Buffer_from_binary literal.

Definition probe (ip : string) (port : N) : Datagram :=
  send queryPacket 0 (List.length queryPacket) port ip.

(** ** The parser *)

(** [s.split(sep)] for a separator of one character. *)
Fixpoint split (sep : ascii) (s : string) : list string :=
  match s with
  | EmptyString => [EmptyString]
  | String c rest =>
      if Ascii.eqb c sep then EmptyString :: split sep rest
      else
        match split sep rest with
        | [] => [String c EmptyString]
        | piece :: pieces => String c piece :: pieces
        end
  end.

(** How often [sep] occurs in [s]. *)
Fixpoint occurrences (sep : ascii) (s : string) : nat :=
  match s with
  | EmptyString => 0
  | String c rest =>
      if Ascii.eqb c sep then S (occurrences sep rest) else occurrences sep rest
  end.

(** A JavaScript number as [parseInt] returns it. *)
Inductive number : Type :=
| NaN
| Infinity (negative : bool)
| Num (z : Z).

(** The object resolved with; [None] in [map] and [gametype] is [undefined]. *)
Record Status : Type := mkStatus {
  status : string;
  players : Z;
  maxPlayers : number;
  map : option string;
  gametype : option string
}.

(** How the promise settles when a message arrives. *)
Inductive Settled : Type :=
| resolve (st : Status)
| reject (error : string).

Section Parser.

(** The built-in [parseInt], applied to a string or to [undefined]. *)
Variable parseInt : option string -> number.

(** The body of the loop over the status variables. *)
Definition assign (key : string) (value : option string) (st : Status)
  : Status :=
  let st :=
    if String.eqb key "sv_maxclients" then
      {| status := status st; players := players st;
         maxPlayers := parseInt value; map := map st;
         gametype := gametype st |}
    else st in
  let st :=
    if String.eqb key "mapname" then
      {| status := status st; players := players st;
         maxPlayers := maxPlayers st; map := value;
         gametype := gametype st |}
    else st in
  if String.eqb key "g_gametype" then
    {| status := status st; players := players st;
       maxPlayers := maxPlayers st; map := map st;
       gametype := value |}
  else st.

(** [for (let i = 0; i < statusVars.length; i += 2)]: [statusVars[i]] is
    the key, [statusVars[i + 1]] the value, [undefined] past the end. *)
Fixpoint parseVars (statusVars : list string) (st : Status) : Status :=
  match statusVars with
  | [] => st
  | [key] => assign key None st
  | key :: value :: rest => parseVars rest (assign key (Some value) st)
  end.

(** The [message] handler of [queryGameServer]. *)
Definition onMessage (response : string) : Settled :=
  match split LF response with
  | [] => reject "TypeError"
  | statusLine :: playerLines =>
      let statusVars := tl (split backslash statusLine) in
      let st :=
        {| status := "online";
           players := Z.of_nat (List.length playerLines) - 1;
           maxPlayers := Num 32;
           map := Some "unknown";
           gametype := Some "unknown" |} in
      resolve (parseVars statusVars st)
  end.

End Parser.

(** The response of the specification's example. *)
Definition captured : string :=
  ("statusResponse" ++ String LF
     ("\sv_maxclients\16\mapname\dm1\g_gametype\0" ++ String LF
        ("player1" ++ String LF ("player2" ++ String LF ""))))%string.

End Query.

(* ===================================================================== *)
(** * Vocabulary of the properties, and sample states *)
(* ===================================================================== *)

Module Terms.
Import Lobby.

(** The ids of the games a user takes part in, in the order of the map. *)
Definition sessions_of (userId : string) (games : JsMap.t Game) : list string :=
  List.map fst (filter (fun e => takes_part userId (snd e)) games).

(** What one visit of the [disconnect] loop leaves of an entry. *)
Definition departed (userId : string) (e : string * Game) : string * Game :=
  (fst e, without userId (snd e)).

Definition is_allPlayersReady (e : Event) : bool :=
  match e with allPlayersReady _ => true | _ => false end.

(** How many [allPlayersReady] events a handler emitted, for any game. *)
Definition count_allPlayersReady (emitted : list Event) : nat :=
  List.length (filter is_allPlayersReady emitted).

Definition everyone_ready (game : Game) : Prop :=
  forall p, In p (participants game) -> isReady p = true.

Definition someone_unready (game : Game) : Prop :=
  exists p, In p (participants game) /\ isReady p = false.

(** [updateGame] to ['In Progress'] succeeds: exactly the [gameUpdated] event
    is emitted, and it carries the game as it is then stored, with the new
    status. *)
Definition start_succeeds (s : Server) (gameId : string) : Prop :=
  exists game',
    snd (updateGame s gameId "In Progress") = [gameUpdated game'] /\
    status game' = "In Progress" /\
    JsMap.get (activeGames (fst (updateGame s gameId "In Progress"))) gameId
      = Some game'.

(** The condition the specification gives for that success. *)
Definition nonempty_and_ready (game : Game) : Prop :=
  participants game <> [] /\ everyone_ready game.

(** Both maps of the server have distinct keys. *)
Definition well_formed (s : Server) : Prop :=
  JsMap.wf (connectedUsers s) /\ JsMap.wf (activeGames s).

(** Sample data. *)
Definition alice : Participant :=
  {| uid := "alice"; isReady := true; participant_props := [("name", "Alice")] |}.

Definition bob : Participant :=
  {| uid := "bob"; isReady := false; participant_props := [] |}.

Definition game_of (gameId : string) (ps : list Participant) : Game :=
  {| id := gameId; status := "Open"; participants := ps; game_props := [] |}.

Definition alice_auth : Auth :=
  {| auth_uid := "alice"; displayName := None; auth_email := None;
     photoURL := None |}.

(** A lobby with one game nobody has joined. *)
Definition empty_lobby : Server :=
  fst (run initial [("c0", CreateGame (game_of "g1" []))]).

(** A lobby with one open game in which [bob] is not ready. *)
Definition unready_lobby : Server :=
  fst (run initial [("c0", CreateGame (game_of "g1" [alice; bob]))]).

(** [alice], connected as [c1], takes part in [g1] and [g3], not in [g2]. *)
Definition busy_lobby : Server :=
  fst (run initial
         [("c1", Connect (Some alice_auth));
          ("c1", CreateGame (game_of "g1" [alice; bob]));
          ("c1", CreateGame (game_of "g2" [bob]));
          ("c1", CreateGame (game_of "g3" [bob; alice; alice]))]).

End Terms.

(* ===================================================================== *)
(** * Start-up: the Firebase credentials *)
(* ===================================================================== *)

Module Startup.

(** The environment variables [getFirebaseConfig] reads; [None] is unset. *)
Record Env : Type := mkEnv {
  FIREBASE_PRIVATE_KEY : option string;
  FIREBASE_PROJECT_ID : option string;
  FIREBASE_CLIENT_EMAIL : option string
}.

(** [privateKey.replace(/\\n/g, '\n')]: every backslash followed by [n],
    found from left to right, becomes one newline. *)
Fixpoint unescape_newlines (s : string) : string :=
  match s with
  | EmptyString => EmptyString
  | String c rest =>
      match rest with
      | String c' rest' =>
          if Ascii.eqb c Query.backslash && Ascii.eqb c' "n"%char
          then String Query.LF (unescape_newlines rest')
          else String c (unescape_newlines rest)
      | EmptyString => String c EmptyString
      end
  end.

(** A backslash followed by [n] stands somewhere in [s]. *)
Fixpoint escaped_newline (s : string) : bool :=
  match s with
  | EmptyString => false
  | String c rest =>
      match rest with
      | String c' _ =>
          (Ascii.eqb c Query.backslash && Ascii.eqb c' "n"%char)
          || escaped_newline rest
      | EmptyString => false
      end
  end.

(** The argument of [admin.credential.cert]. *)
Record ServiceAccount : Type := mkServiceAccount {
  projectId : string;
  clientEmail : string;
  privateKey : string
}.

Definition missing_credentials : string := "Missing required Firebase credentials".

Section Config.

(** The credential of the Firebase library, and its [admin.credential.cert]:
    it returns a credential or throws, as it does for a private key that is
    no PEM key; [inr] holds the message of the error thrown. *)
Variable Credential : Type.
Variable cert : ServiceAccount -> Credential + string.

Record FirebaseConfig : Type := mkFirebaseConfig {
  credential : Credential;
  databaseURL : string
}.

(** [getFirebaseConfig]: the configuration, or the message of the error it
    throws; a variable that is unset or empty is missing, and an error of
    [cert] is caught, logged and thrown again. *)
Definition getFirebaseConfig (env : Env) : FirebaseConfig + string :=
  match FIREBASE_PRIVATE_KEY env, FIREBASE_PROJECT_ID env,
        FIREBASE_CLIENT_EMAIL env with
  | Some key, Some project, Some client =>
      if String.eqb key "" || String.eqb project "" || String.eqb client ""
      then inr missing_credentials
      else
        match cert {| projectId := project;
                      clientEmail := client;
                      privateKey := unescape_newlines key |} with
        | inl made =>
            inl {| credential := made;
                   databaseURL :=
                     ("https://" ++ project ++ ".firebaseio.com")%string |}
        | inr err => inr err
        end
  | _, _, _ => inr missing_credentials
  end.

End Config.

End Startup.

(* ===================================================================== *)
(** * The status query: settling, and the HTTP route *)
(* ===================================================================== *)

Module Channel.
Import Query.

(** What can happen to the socket of one [queryGameServer] call: a datagram
    arrives, the socket reports an error, or the timer of 3000 ms fires.  The
    timer is never cleared, so it fires in every call. *)
Inductive Incident : Type :=
| message (msg : string)
| error (err : string)
| timer.

(** The promise of the call and the number of [client.close()] calls. *)
Record Call : Type := mkCall {
  outcome : option Settled;
  closes : nat
}.

Definition pending : Call := {| outcome := None; closes := 0 |}.

(** [client.close()] *)
Definition close (c : Call) : Call :=
  {| outcome := outcome c; closes := S (closes c) |}.

(** [resolve(...)] and [reject(...)]: a promise that is settled stays as it
    is. *)
Definition settle (r : Settled) (c : Call) : Call :=
  match outcome c with
  | Some _ => c
  | None => {| outcome := Some r; closes := closes c |}
  end.

Section Handlers.

Variable parseInt : option string -> number.

(** The three callbacks of [queryGameServer]. *)
Definition on_incident (c : Call) (i : Incident) : Call :=
  match i with
  | message msg => settle (onMessage parseInt msg) (close c)
  | error err => settle (reject err) (close c)
  | timer => settle (reject "Timeout") (close c)
  end.

Definition after (incidents : list Incident) : Call :=
  fold_left on_incident incidents pending.

(** What an incident settles a pending promise with. *)
Definition verdict (i : Incident) : Settled :=
  match i with
  | message msg => onMessage parseInt msg
  | error err => reject err
  | timer => reject "Timeout"
  end.

End Handlers.

End Channel.

Module Route.
Import Query.

(** The bodies given to [res.json]. *)
Inductive Body : Type :=
| status_json (st : Status)
| failure_json (status : string) (players maxPlayers : Z) (error : string).

Record Reply : Type := mkReply {
  code : nat;
  body : Body
}.

(** The route sends its reply at once, or first queries the game server. *)
Inductive Started : Type :=
| replied (r : Reply)
| queried (d : Datagram).

Definition bad_request (error : string) : Reply :=
  {| code := 400; body := failure_json "error" 0 32 error |}.

(** [isNaN(n)], [n <= z] and [n > z] on numbers; a comparison with [NaN] is
    false. *)
Definition isNaN (n : number) : bool :=
  match n with NaN => true | _ => false end.

Definition number_le (n : number) (z : Z) : bool :=
  match n with
  | NaN => false
  | Infinity negative => negative
  | Num x => (x <=? z)%Z
  end.

Definition number_gt (n : number) (z : Z) : bool :=
  match n with
  | NaN => false
  | Infinity negative => negb negative
  | Num x => (x >? z)%Z
  end.

(** The port a number stands for in [client.send]; only integers reach it. *)
Definition port_of (n : number) : N :=
  match n with Num x => Z.to_N x | _ => 0%N end.

Section Handler.

Variable parseInt : option string -> number.

(** [app.get('/api/server-status/:ip/:port', ...)] up to the [await]. *)
Definition serverStatus_request (ip port : string) : Started :=
  if String.eqb ip "" || String.eqb port "" then
    replied (bad_request "Invalid IP or port")
  else
    let parsedPort := parseInt (Some port) in
    if isNaN parsedPort || number_le parsedPort 0 || number_gt parsedPort 65535
    then replied (bad_request "Invalid port number")
    else queried (probe ip (port_of parsedPort)).

(** The rest of the route, once the promise of the query has settled. *)
Definition serverStatus_reply (settled : Settled) : Reply :=
  match settled with
  | resolve st => {| code := 200; body := status_json st |}
  | reject err =>
      {| code := 500; body := failure_json "offline" 0 32 err |}
  end.

End Handler.

End Route.

(* ===================================================================== *)
(** * Further vocabulary *)
(* ===================================================================== *)

Module MoreTerms.
Import Lobby.

(** The inbound events whose handlers assign no [status] and store no new
    game: all but [createGame] and [updateGame]. *)
Definition keeps_status (e : Inbound) : bool :=
  match e with
  | CreateGame _ | UpdateGame _ _ => false
  | _ => true
  end.

Definition is_CreateGame (e : Inbound) : bool :=
  match e with CreateGame _ => true | _ => false end.

(** An identity as [connection] stores it has a user id and a name. *)
Definition identified (u : User) : Prop := user_id u <> "" /\ name u <> "".

(** The keys among the status variables: the tokens at even positions. *)
Fixpoint keys_of (statusVars : list string) : list string :=
  match statusVars with
  | [] => []
  | [key] => [key]
  | key :: _ :: rest => key :: keys_of rest
  end.

Definition known_key (key : string) : bool :=
  String.eqb key "sv_maxclients" || String.eqb key "mapname"
  || String.eqb key "g_gametype".

(** [pieces.join(sep)] *)
Definition join (sep : ascii) (pieces : list string) : string :=
  String.concat (String sep EmptyString) pieces.

(** [sep] occurs in [s]. *)
Definition contains (sep : ascii) (s : string) : bool :=
  existsb (Ascii.eqb sep) (list_ascii_of_string s).


(** A lobby with one game whose only participant, [alice], is ready. *)
Definition ready_lobby : Server :=
  fst (run initial [("c0", CreateGame (Terms.game_of "g1" [Terms.alice]))]).

Definition carol_auth : Auth :=
  {| auth_uid := "carol"; displayName := Some "Carol"; auth_email := None;
     photoURL := None |}.

(** [alice] is connected twice, as [c1] and as [c2], and takes part in
    [g1]. *)
Definition twice_connected : Server :=
  fst (run initial
         [("c1", Connect (Some Terms.alice_auth));
          ("c2", Connect (Some Terms.alice_auth));
          ("c1", CreateGame (Terms.game_of "g1" [Terms.alice; Terms.bob]))]).

End MoreTerms.

(* ===================================================================== *)
(** * Facts about [JsMap] *)
(* ===================================================================== *)

Module JsMapFacts.
Import JsMap.

Section Facts.
Context {V : Type}.
Implicit Types (m : JsMap.t V) (k : string) (v : V).

Lemma get_set_same m k v : get (set k v m) k = Some v.
Proof.
  induction m as [|[k' v'] rest IH]; simpl.
  - now rewrite String.eqb_refl.
  - destruct (String.eqb k k') eqn:E; simpl; rewrite E; auto.
Qed.

Lemma get_set_other m k k' v : k <> k' -> get (set k v m) k' = get m k'.
Proof.
  intros Hne. induction m as [|[k0 v0] rest IH]; simpl.
  - destruct (String.eqb_spec k' k); congruence.
  - destruct (String.eqb_spec k k0) as [->|]; simpl.
    + destruct (String.eqb_spec k' k0); congruence.
    + now rewrite IH.
Qed.

(** Storing again the value a key already has changes nothing. *)
Lemma set_same_value m k v : get m k = Some v -> set k v m = m.
Proof.
  induction m as [|[k' v'] rest IH]; simpl; [discriminate|].
  destruct (String.eqb k k'); intros H.
  - congruence.
  - now rewrite IH.
Qed.

Lemma get_none_delete m k : get m k = None -> delete k m = m.
Proof.
  induction m as [|[k' v'] rest IH]; simpl; [reflexivity|].
  destruct (String.eqb k k'); [discriminate|].
  intros H. now rewrite IH.
Qed.

Lemma distinct_NoDup (ks : list string) : distinct ks = true <-> NoDup ks.
Proof.
  induction ks as [|k rest IH]; simpl.
  - split; [constructor | reflexivity].
  - rewrite andb_true_iff, negb_true_iff, IH. split.
    + intros [Hk Hn]. constructor; [|assumption].
      intros Hin. assert (existsb (String.eqb k) rest = true) as E.
      { apply existsb_exists. exists k. split; [assumption|apply String.eqb_refl]. }
      congruence.
    + intros Hn. inversion Hn as [|? ? Hk Hr]; subst. split; [|assumption].
      destruct (existsb (String.eqb k) rest) eqn:E; [|reflexivity].
      apply existsb_exists in E as (x & Hin & Hx).
      apply String.eqb_eq in Hx. subst x. contradiction.
Qed.

Lemma get_not_in m k : ~ In k (keys m) -> get m k = None.
Proof.
  induction m as [|[k' v'] rest IH]; simpl; [reflexivity|].
  intros Hn. destruct (String.eqb_spec k k') as [->|].
  - exfalso. apply Hn. now left.
  - apply IH. intros Hin. apply Hn. now right.
Qed.

Lemma keys_set_present m k v :
  In k (keys m) -> keys (set k v m) = keys m.
Proof.
  induction m as [|[k' v'] rest IH]; simpl; [contradiction|].
  intros Hin. destruct (String.eqb_spec k k') as [->|Hne]; simpl.
  - reflexivity.
  - f_equal. apply IH. destruct Hin; congruence.
Qed.

Lemma keys_set_absent m k v :
  ~ In k (keys m) -> keys (set k v m) = keys m ++ [k].
Proof.
  induction m as [|[k' v'] rest IH]; simpl; [reflexivity|].
  intros Hn. destruct (String.eqb_spec k k') as [->|Hne]; simpl.
  - exfalso. apply Hn. now left.
  - f_equal. apply IH. intros Hin. apply Hn. now right.
Qed.

Lemma in_keys_delete m k k' : In k' (keys (delete k m)) -> In k' (keys m).
Proof.
  induction m as [|[k0 v0] rest IH]; simpl; [auto|].
  destruct (String.eqb k k0); simpl; intuition.
Qed.

(** [set] and [delete] keep the keys of a map distinct. *)
Lemma wf_set m k v : wf m -> wf (set k v m).
Proof.
  unfold wf. rewrite !distinct_NoDup. intros Hn.
  destruct (in_dec string_dec k (keys m)) as [Hin|Hout].
  - now rewrite keys_set_present.
  - rewrite keys_set_absent by assumption.
    apply NoDup_rev in Hn. rewrite <- (rev_involutive (keys m ++ [k])).
    apply NoDup_rev. rewrite rev_app_distr. simpl. constructor; [|assumption].
    now rewrite <- in_rev.
Qed.

Lemma wf_delete m k : wf m -> wf (delete k m).
Proof.
  unfold wf. rewrite !distinct_NoDup.
  induction m as [|[k' v'] rest IH]; simpl; [auto|].
  intros Hn. inversion Hn as [|? ? Hk Hr]; subst.
  destruct (String.eqb k k'); simpl; [assumption|].
  constructor; [|auto].
  intros Hin. apply Hk. eapply in_keys_delete. eassumption.
Qed.

(** After [delete], the key is gone. *)
Lemma get_delete_same m k : wf m -> get (delete k m) k = None.
Proof.
  unfold wf. rewrite distinct_NoDup.
  induction m as [|[k' v'] rest IH]; simpl; [reflexivity|].
  intros Hn. inversion Hn as [|? ? Hk Hr]; subst.
  destruct (String.eqb_spec k k') as [->|Hne]; simpl.
  - now apply get_not_in.
  - destruct (String.eqb_spec k k'); [contradiction|]. auto.
Qed.

Lemma get_delete_other m k k' : k <> k' -> get (delete k m) k' = get m k'.
Proof.
  intros Hne. induction m as [|[k0 v0] rest IH]; simpl; [reflexivity|].
  destruct (String.eqb_spec k k0) as [->|]; simpl.
  - destruct (String.eqb_spec k' k0); congruence.
  - now rewrite IH.
Qed.

(** [set] on a key that stands behind a prefix without it. *)
Lemma set_behind (front back : JsMap.t V) k v v0 :
  ~ In k (keys front) ->
  set k v (front ++ (k, v0) :: back) = front ++ (k, v) :: back.
Proof.
  induction front as [|[k' v'] rest IH]; simpl; intros Hn.
  - now rewrite String.eqb_refl.
  - destruct (String.eqb_spec k k') as [->|Hne].
    + exfalso. apply Hn. now left.
    + f_equal. apply IH. intros Hin. apply Hn. now right.
Qed.

End Facts.

(** Changing every value in place changes what [get] finds the same way. *)
Lemma get_map_values {V W : Type} (f : V -> W) (m : JsMap.t V) (k : string) :
  get (List.map (fun e => (fst e, f (snd e))) m) k = option_map f (get m k).
Proof.
  induction m as [|[k' v'] rest IH]; simpl; [reflexivity|].
  destruct (String.eqb k k'); simpl; auto.
Qed.

End JsMapFacts.

(* ===================================================================== *)
(** * The lobby handlers *)
(* ===================================================================== *)

Module LobbyFacts.
Import JsMap JsMapFacts Lobby Terms.

Lemma with_participants_same (game : Game) :
  with_participants game (participants game) = game.
Proof. now destruct game. Qed.

Lemma filter_keeps_all {A : Type} (f : A -> bool) (l : list A) :
  (forall x, In x l -> f x = true) -> filter f l = l.
Proof.
  induction l as [|a rest IH]; simpl; intros H; [reflexivity|].
  rewrite (H a) by now left. f_equal. apply IH. intros x Hx. apply H. now right.
Qed.

Lemma map_keeps_all {A : Type} (f : A -> A) (l : list A) :
  (forall x, In x l -> f x = x) -> List.map f l = l.
Proof.
  induction l as [|a rest IH]; simpl; intros H; [reflexivity|].
  rewrite (H a) by now left. f_equal. apply IH. intros x Hx. apply H. now right.
Qed.

Lemma allReady_everyone (game : Game) :
  allReady game = true <-> everyone_ready game.
Proof. unfold allReady, everyone_ready. apply forallb_forall. Qed.

Lemma allReady_someone (game : Game) :
  allReady game = false <-> someone_unready game.
Proof.
  unfold allReady, someone_unready.
  induction (participants game) as [|p rest IH]; simpl.
  - split; [discriminate | intros (p & [] & _)].
  - destruct (isReady p) eqn:E; simpl.
    + rewrite IH. split.
      * intros (q & Hq & Hr). exists q. auto.
      * intros (q & [<-|Hq] & Hr); [congruence|]. exists q. auto.
    + split; [|reflexivity]. intros _. exists p. auto.
Qed.

(** ** Leaving *)

Lemma without_stranger (userId : string) (game : Game) :
  takes_part userId game = false -> without userId game = game.
Proof.
  unfold takes_part, without. intros H.
  rewrite filter_keeps_all; [apply with_participants_same|].
  intros p Hp. unfold other_than. apply negb_true_iff.
  destruct (String.eqb (uid p) userId) eqn:E; [|reflexivity].
  rewrite <- H. symmetry. apply existsb_exists. exists p. auto.
Qed.

Lemma without_gone (userId : string) (game : Game) (p : Participant) :
  In p (participants (without userId game)) -> uid p <> userId.
Proof.
  unfold without. simpl. rewrite filter_In. unfold other_than.
  intros [_ H]. apply negb_true_iff in H. now apply String.eqb_neq.
Qed.

Lemma keys_departed (userId : string) (games : JsMap.t Game) :
  keys (List.map (departed userId) games) = keys games.
Proof. unfold keys. rewrite List.map_map. reflexivity. Qed.

(** The loop of [disconnect], once it has gone through [front] and has
    [back] ahead. *)
Lemma fold_depart (userId : string) (back front : JsMap.t Game)
  (emitted : list Event) :
  NoDup (keys (front ++ back)) ->
  fold_left (depart userId) back (front ++ back, emitted) =
    (front ++ List.map (departed userId) back,
     emitted ++ List.map (fun gameId => playerLeft gameId userId)
                         (sessions_of userId back)).
Proof.
  revert front emitted.
  induction back as [|[gameId game] rest IH]; intros front emitted Hn; simpl.
  - unfold sessions_of. simpl. now rewrite !app_nil_r.
  - assert (~ In gameId (keys front)) as Hfresh.
    { unfold keys in *. rewrite List.map_app in Hn. simpl in Hn.
      apply NoDup_remove_2 in Hn. intros Hin. apply Hn.
      apply in_or_app. now left. }
    assert (NoDup (keys ((front ++ [(gameId, without userId game)]) ++ rest)))
      as Hn'.
    { unfold keys in *. rewrite <- app_assoc. simpl.
      rewrite List.map_app in *. exact Hn. }
    unfold sessions_of. simpl.
    destruct (takes_part userId game) eqn:E; simpl.
    + rewrite set_behind by assumption.
      change (front ++ (gameId, without userId game) :: rest)
        with (front ++ [(gameId, without userId game)] ++ rest).
      rewrite app_assoc, IH by assumption.
      unfold departed at 2. simpl. unfold sessions_of.
      now rewrite <- !app_assoc.
    + specialize (IH (front ++ [(gameId, without userId game)]) emitted Hn').
      rewrite without_stranger in IH by assumption.
      rewrite <- app_assoc in IH. simpl in IH. rewrite IH.
      unfold departed at 2. simpl. rewrite without_stranger by assumption.
      unfold sessions_of. now rewrite <- app_assoc.
Qed.

(** The [disconnect] handler of a registered connection, in closed form. *)
Lemma disconnect_registered (s : Server) (socket_id : string) (user : User) :
  wf (activeGames s) ->
  get (connectedUsers s) socket_id = Some user ->
  disconnect s socket_id =
    ({| connectedUsers := delete socket_id (connectedUsers s);
        activeGames := List.map (departed (user_id user)) (activeGames s) |},
     List.map (fun gameId => playerLeft gameId (user_id user))
              (sessions_of (user_id user) (activeGames s))).
Proof.
  intros Hwf Hget. unfold disconnect. rewrite Hget.
  unfold wf in Hwf. rewrite distinct_NoDup in Hwf.
  pose proof (fold_depart (user_id user) (activeGames s) [] []) as H.
  simpl in H. specialize (H Hwf).
  destruct (fold_left (depart (user_id user)) (entries (activeGames s))
              (activeGames s, [])) as [games emitted] eqn:F.
  unfold entries in F.
  assert ((games, emitted) =
            (List.map (departed (user_id user)) (activeGames s),
             List.map (fun gameId => playerLeft gameId (user_id user))
               (sessions_of (user_id user) (activeGames s)))) as E.
  { rewrite <- F. exact H. }
  inversion E. reflexivity.
Qed.

(** ** The maps stay maps *)

Lemma handle_well_formed (s : Server) (socket_id : string) (e : Inbound) :
  well_formed s -> well_formed (fst (handle s socket_id e)).
Proof.
  intros [Hu Hg]. unfold well_formed.
  destruct e as [auth|gameData|gameId player|gameId playerId
                |gameId playerId ready|gameId st|]; simpl.
  - unfold connection. destruct auth as [a|]; [|auto].
    destruct (String.eqb (auth_uid a) ""); simpl; auto using wf_set.
  - auto using wf_set.
  - unfold joinGame. destruct (get (activeGames s) gameId); simpl;
      auto using wf_set.
  - unfold leaveGame. destruct (get (activeGames s) gameId); simpl;
      auto using wf_set.
  - unfold toggleReady. destruct (get (activeGames s) gameId); simpl; [|auto].
    match goal with |- context [if ?b then _ else _] => destruct b end;
      simpl; auto using wf_set.
  - unfold updateGame. destruct (get (activeGames s) gameId); simpl; [|auto].
    destruct (String.eqb st "In Progress"); simpl; [|auto using wf_set].
    match goal with |- context [if ?b then _ else _] => destruct b end;
      simpl; auto using wf_set.
  - destruct (get (connectedUsers s) socket_id) as [user|] eqn:E.
    + rewrite (disconnect_registered s socket_id user) by assumption. simpl.
      split; [now apply wf_delete|].
      unfold wf. now rewrite keys_departed.
    + unfold disconnect. rewrite E. simpl. split; [now apply wf_delete|auto].
Qed.

Lemma run_well_formed (trace : list (string * Inbound)) (s : Server) :
  well_formed s -> well_formed (fst (run s trace)).
Proof.
  revert s. induction trace as [|[socket_id e] rest IH]; intros s H; simpl.
  - assumption.
  - pose proof (handle_well_formed s socket_id e H) as H1.
    destruct (handle s socket_id e) as [s1 out1]. simpl in H1.
    specialize (IH s1 H1). destruct (run s1 rest) as [s2 out2]. exact IH.
Qed.

(** ** Starting a game *)

(** [updateGame] to ['In Progress'], in closed form: the status is stored
    whatever the check says; the check decides on the event. *)
Lemma updateGame_start (s : Server) (gameId : string) (game : Game) :
  get (activeGames s) gameId = Some game ->
  updateGame s gameId "In Progress" =
    (with_games s
       (set gameId (with_status game "In Progress") (activeGames s)),
     if allReady game then [gameUpdated (with_status game "In Progress")]
     else []).
Proof.
  intros H. unfold updateGame. rewrite H. simpl.
  change (allReady (with_status game "In Progress")) with (allReady game).
  now destruct (allReady game).
Qed.

(** C1, at a game with a participant who is not ready: the request to start
    is refused without a broadcast, as the claim says, but the stored status
    has become ['In Progress'] all the same: the handler assigns it before it
    checks, so the stored session is not what it was before the call. *)
Theorem updateGame_refused_start_stores_status :
  get (activeGames unready_lobby) "g1" = Some (game_of "g1" [alice; bob]) /\
  someone_unready (game_of "g1" [alice; bob]) /\
  snd (updateGame unready_lobby "g1" "In Progress") = [] /\
  get (activeGames (fst (updateGame unready_lobby "g1" "In Progress"))) "g1"
    = Some (with_status (game_of "g1" [alice; bob]) "In Progress") /\
  fst (updateGame unready_lobby "g1" "In Progress") <> unready_lobby.
Proof.
  repeat split; try reflexivity.
  - exists bob. split; [right; left; reflexivity | reflexivity].
  - discriminate.
Qed.

(** C2, as the specification words it, fails at a game nobody has joined:
    the start succeeds there although the participant list is empty. *)
Lemma start_of_empty_game_succeeds :
  get (activeGames empty_lobby) "g1" = Some (game_of "g1" []) /\
  ~ (start_succeeds empty_lobby "g1" <-> nonempty_and_ready (game_of "g1" [])).
Proof.
  split; [reflexivity|].
  intros [Hto _].
  assert (start_succeeds empty_lobby "g1") as Hs.
  { exists (with_status (game_of "g1" []) "In Progress").
    repeat split; reflexivity. }
  destruct (Hto Hs) as [Hne _]. apply Hne. reflexivity.
Qed.

(** C2, amended: for a game of the store, the request to start it succeeds
    (the [gameUpdated] event is emitted, carrying the game as stored with
    status ['In Progress']) if and only if every participant is ready at the
    time of the call, which an empty participant list is; when some
    participant is not ready, nothing is emitted. *)
Theorem start_succeeds_iff_everyone_ready
  (s : Server) (gameId : string) (game : Game) :
  get (activeGames s) gameId = Some game ->
  (start_succeeds s gameId <-> everyone_ready game) /\
  (someone_unready game -> snd (updateGame s gameId "In Progress") = []).
Proof.
  intros H. unfold start_succeeds.
  rewrite (updateGame_start s gameId game H). simpl.
  rewrite <- allReady_everyone, <- allReady_someone.
  destruct (allReady game) eqn:E; split.
  - split; [reflexivity|]. intros _.
    exists (with_status game "In Progress").
    repeat split. apply get_set_same.
  - discriminate.
  - split; [|discriminate]. intros (g & Hout & _). discriminate.
  - reflexivity.
Qed.

Lemma start_succeeds_iff_everyone_ready_witness :
  (start_succeeds empty_lobby "g1" <-> everyone_ready (game_of "g1" [])) /\
  (someone_unready (game_of "g1" []) ->
   snd (updateGame empty_lobby "g1" "In Progress") = []).
Proof.
  apply (start_succeeds_iff_everyone_ready empty_lobby "g1" (game_of "g1" [])).
  reflexivity.
Defined.

(** ** Joining *)

(** C6: [joinGame] for a game id that is not in the store emits nothing and
    leaves the server, and with it the whole store of games, as it was. *)
Theorem joinGame_unknown (s : Server) (gameId : string) (player : Participant) :
  get (activeGames s) gameId = None ->
  joinGame s gameId player = (s, []).
Proof. intros H. unfold joinGame. now rewrite H. Qed.

Lemma joinGame_unknown_witness :
  joinGame unready_lobby "g2" alice = (unready_lobby, []).
Proof. apply (joinGame_unknown unready_lobby "g2" alice). reflexivity. Defined.

(** C9: [joinGame] for a game of the store appends, at the end of its
    participants, the given record with [isReady] set to [false], whatever
    the flag of the given record was; the [uid] and the other properties are
    kept, and the appended record is the one the [playerJoined] event
    carries. *)
Theorem joinGame_appends_unready
  (s : Server) (gameId : string) (game : Game) (player : Participant) :
  get (activeGames s) gameId = Some game ->
  exists joined stored,
    isReady joined = false /\
    uid joined = uid player /\
    participant_props joined = participant_props player /\
    snd (joinGame s gameId player) = [playerJoined gameId joined] /\
    get (activeGames (fst (joinGame s gameId player))) gameId = Some stored /\
    participants stored = participants game ++ [joined] /\
    id stored = id game /\
    status stored = status game /\
    game_props stored = game_props game /\
    stored = with_participants game (participants game ++ [joined]).
Proof.
  intros H. exists (with_isReady player false).
  exists (with_participants game
            (participants game ++ [with_isReady player false])).
  unfold joinGame. rewrite H. simpl.
  repeat split. apply get_set_same.
Qed.

Lemma joinGame_appends_unready_witness :
  isReady alice = true /\
  exists joined stored,
    isReady joined = false /\
    uid joined = uid alice /\
    participant_props joined = participant_props alice /\
    snd (joinGame unready_lobby "g1" alice) = [playerJoined "g1" joined] /\
    get (activeGames (fst (joinGame unready_lobby "g1" alice))) "g1"
      = Some stored /\
    participants stored = participants (game_of "g1" [alice; bob]) ++ [joined] /\
    id stored = id (game_of "g1" [alice; bob]) /\
    status stored = status (game_of "g1" [alice; bob]) /\
    game_props stored = game_props (game_of "g1" [alice; bob]) /\
    stored = with_participants (game_of "g1" [alice; bob])
               (participants (game_of "g1" [alice; bob]) ++ [joined]).
Proof.
  split; [reflexivity|].
  apply (joinGame_appends_unready unready_lobby "g1"
           (game_of "g1" [alice; bob]) alice).
  reflexivity.
Defined.

(** ** Readiness *)

(** [toggleReady] on a game of the store, in closed form. *)
Lemma toggleReady_known
  (s : Server) (gameId playerId : string) (ready : bool) (game : Game) :
  get (activeGames s) gameId = Some game ->
  let game' :=
    with_participants game
      (List.map (mark_ready playerId ready) (participants game)) in
  toggleReady s gameId playerId ready =
    (with_games s (set gameId game' (activeGames s)),
     playerReadyChanged gameId playerId ready
       :: (if allReady game' then [allPlayersReady gameId] else [])).
Proof.
  intros H. unfold toggleReady. rewrite H. simpl.
  match goal with |- context [if ?b then _ else _] => destruct b end;
    reflexivity.
Qed.

(** C4: after [toggleReady] on a game of the store, the game is stored with
    the updated participants; if every one of them is ready, and so also if
    there is none, exactly one [allPlayersReady] event is emitted and it is
    the one of this game; if one of them is not ready, no [allPlayersReady]
    event is emitted. *)
Theorem toggleReady_allPlayersReady
  (s : Server) (gameId playerId : string) (ready : bool) (game : Game) :
  get (activeGames s) gameId = Some game ->
  exists game',
    get (activeGames (fst (toggleReady s gameId playerId ready))) gameId
      = Some game' /\
    participants game'
      = List.map (mark_ready playerId ready) (participants game) /\
    (everyone_ready game' ->
     count_allPlayersReady (snd (toggleReady s gameId playerId ready)) = 1 /\
     In (allPlayersReady gameId) (snd (toggleReady s gameId playerId ready))) /\
    (someone_unready game' ->
     count_allPlayersReady (snd (toggleReady s gameId playerId ready)) = 0).
Proof.
  intros H.
  rewrite (toggleReady_known s gameId playerId ready game H). simpl.
  set (game' := with_participants game
                  (List.map (mark_ready playerId ready) (participants game))).
  exists game'. split; [apply get_set_same|]. split; [reflexivity|].
  rewrite <- allReady_everyone, <- allReady_someone.
  destruct (allReady game'); split; intros E; try discriminate.
  - split; [reflexivity|]. right. now left.
  - reflexivity.
Qed.

Lemma toggleReady_allPlayersReady_witness :
  exists game',
    get (activeGames (fst (toggleReady empty_lobby "g1" "bob" false))) "g1"
      = Some game' /\
    participants game'
      = List.map (mark_ready "bob" false) (participants (game_of "g1" [])) /\
    (everyone_ready game' ->
     count_allPlayersReady (snd (toggleReady empty_lobby "g1" "bob" false)) = 1 /\
     In (allPlayersReady "g1") (snd (toggleReady empty_lobby "g1" "bob" false))) /\
    (someone_unready game' ->
     count_allPlayersReady (snd (toggleReady empty_lobby "g1" "bob" false)) = 0).
Proof.
  apply (toggleReady_allPlayersReady empty_lobby "g1" "bob" false
           (game_of "g1" [])).
  reflexivity.
Defined.

(** C10: [toggleReady] for a user id that no participant of the game has
    leaves the server as it was, every participant record included, and
    still emits [playerReadyChanged] with the arguments it was given; when
    every participant of the game is ready already (as in a game without
    participants) [allPlayersReady] follows it, whether the call carried
    [true] or [false]; when some participant is not ready, nothing
    follows. *)
Theorem toggleReady_stranger
  (s : Server) (gameId playerId : string) (ready : bool) (game : Game) :
  get (activeGames s) gameId = Some game ->
  (forall p, In p (participants game) -> uid p <> playerId) ->
  fst (toggleReady s gameId playerId ready) = s /\
  get (activeGames (fst (toggleReady s gameId playerId ready))) gameId
    = Some game /\
  (everyone_ready game ->
   snd (toggleReady s gameId playerId ready)
     = [playerReadyChanged gameId playerId ready; allPlayersReady gameId]) /\
  (someone_unready game ->
   snd (toggleReady s gameId playerId ready)
     = [playerReadyChanged gameId playerId ready]).
Proof.
  intros H Hstranger.
  rewrite (toggleReady_known s gameId playerId ready game H). simpl.
  rewrite map_keeps_all.
  - rewrite with_participants_same, set_same_value by assumption.
    rewrite <- allReady_everyone, <- allReady_someone.
    repeat split.
    + now destruct s.
    + simpl. exact H.
    + intros E. now rewrite E.
    + intros E. now rewrite E.
  - intros p Hp. unfold mark_ready.
    destruct (String.eqb_spec (uid p) playerId) as [E|]; [|reflexivity].
    now apply Hstranger in Hp.
Qed.

Lemma toggleReady_stranger_witness :
  fst (toggleReady MoreTerms.ready_lobby "g1" "carol" false) = MoreTerms.ready_lobby /\
  get (activeGames (fst (toggleReady MoreTerms.ready_lobby "g1" "carol" false))) "g1"
    = Some (game_of "g1" [alice]) /\
  snd (toggleReady MoreTerms.ready_lobby "g1" "carol" false)
    = [playerReadyChanged "g1" "carol" false; allPlayersReady "g1"].
Proof.
  destruct (toggleReady_stranger MoreTerms.ready_lobby "g1" "carol" false
              (game_of "g1" [alice])) as (Hs & Hg & Hall & _).
  - reflexivity.
  - simpl. intros p [<-|[]]. discriminate.
  - split; [exact Hs|]. split; [exact Hg|]. apply Hall.
    intros p [<-|[]]. reflexivity.
Defined.

(** ** Disconnecting *)

(** C7: when a registered connection disconnects and its user takes part in
    exactly two games [g1] and [g2], one [playerLeft] event is emitted for
    each of the two, in the order of the store, and no other event; every
    game of the store is left without any participant of that user id, its
    other participants kept; and the connection is no longer registered. *)
Theorem disconnect_two_sessions
  (s : Server) (socket_id : string) (user : User) (g1 g2 : string) :
  well_formed s ->
  get (connectedUsers s) socket_id = Some user ->
  sessions_of (user_id user) (activeGames s) = [g1; g2] ->
  snd (disconnect s socket_id)
    = [playerLeft g1 (user_id user); playerLeft g2 (user_id user)] /\
  (forall gameId,
     get (activeGames (fst (disconnect s socket_id))) gameId
       = option_map (without (user_id user)) (get (activeGames s) gameId)) /\
  (forall gameId game p,
     get (activeGames (fst (disconnect s socket_id))) gameId = Some game ->
     In p (participants game) -> uid p <> user_id user) /\
  get (connectedUsers (fst (disconnect s socket_id))) socket_id = None.
Proof.
  intros [Hu Hg] Hreg Htwo.
  rewrite (disconnect_registered s socket_id user Hg Hreg). simpl.
  rewrite Htwo. simpl.
  assert (forall gameId,
            get (List.map (departed (user_id user)) (activeGames s)) gameId
              = option_map (without (user_id user)) (get (activeGames s) gameId))
    as Hgames.
  { intros gameId. apply (get_map_values (without (user_id user))). }
  repeat split.
  - exact Hgames.
  - intros gameId game p Hget Hp. rewrite Hgames in Hget.
    destruct (get (activeGames s) gameId) as [before|]; [|discriminate].
    simpl in Hget. injection Hget as <-. eapply without_gone. eassumption.
  - now apply get_delete_same.
Qed.

Lemma disconnect_two_sessions_witness :
  snd (disconnect busy_lobby "c1")
    = [playerLeft "g1" "alice"; playerLeft "g3" "alice"] /\
  (forall gameId,
     get (activeGames (fst (disconnect busy_lobby "c1"))) gameId
       = option_map (without "alice") (get (activeGames busy_lobby) gameId)) /\
  (forall gameId game p,
     get (activeGames (fst (disconnect busy_lobby "c1"))) gameId = Some game ->
     In p (participants game) -> uid p <> "alice") /\
  get (connectedUsers (fst (disconnect busy_lobby "c1"))) "c1" = None.
Proof.
  apply (disconnect_two_sessions busy_lobby "c1"
           {| user_id := "alice"; name := "Anonymous"; email := None;
              avatar := None |} "g1" "g3").
  - split; reflexivity.
  - reflexivity.
  - reflexivity.
Defined.

End LobbyFacts.

(* ===================================================================== *)
(** * The status query: probe and parser *)
(* ===================================================================== *)

Module QueryFacts.
Import Query.

(** ** The probe *)

(** The bytes of the source literal read as the string [literal]. *)
Lemma literal_decoded : utf8_decode literal_bytes = Some literal.
Proof. reflexivity. Qed.

(** C8: whatever the host and the port, the datagram [queryGameServer] sends
    them is the 13 bytes [FF FF FF FF] followed by the ASCII codes of
    [getstatus]; its last byte is the [s], not a null byte. *)
Theorem probe_bytes (ip : string) (port : N) :
  payload (probe ip port)
    = [0xFF; 0xFF; 0xFF; 0xFF]%N ++ code_units "getstatus" /\
  List.length (payload (probe ip port)) = 13 /\
  last (payload (probe ip port)) 0%N = N_of_ascii "s" /\
  to_address (probe ip port) = ip /\
  to_port (probe ip port) = port.
Proof. repeat split. Qed.

(** ** The parser *)

Lemma split_not_empty (sep : ascii) (s : string) : split sep s <> [].
Proof.
  destruct s as [|c rest]; simpl; [discriminate|].
  destruct (Ascii.eqb c sep); [discriminate|].
  destruct (split sep rest); discriminate.
Qed.

(** [split] cuts at every separator. *)
Lemma split_length (sep : ascii) (s : string) :
  List.length (split sep s) = S (occurrences sep s).
Proof.
  induction s as [|c rest IH]; simpl; [reflexivity|].
  destruct (Ascii.eqb c sep); simpl; [now rewrite IH|].
  destruct (split sep rest) as [|piece pieces] eqn:E.
  - now apply split_not_empty in E.
  - exact IH.
Qed.

Section Parser.

Variable parseInt : option string -> number.

Lemma assign_players (key : string) (value : option string) (st : Status) :
  players (assign parseInt key value st) = players st.
Proof.
  unfold assign.
  destruct (String.eqb key "sv_maxclients"), (String.eqb key "mapname"),
    (String.eqb key "g_gametype"); reflexivity.
Qed.

Lemma assign_status (key : string) (value : option string) (st : Status) :
  status (assign parseInt key value st) = status st.
Proof.
  unfold assign.
  destruct (String.eqb key "sv_maxclients"), (String.eqb key "mapname"),
    (String.eqb key "g_gametype"); reflexivity.
Qed.

(** The loop over the variables touches neither [players] nor [status]. *)
Lemma parseVars_players (statusVars : list string) :
  forall st, players (parseVars parseInt statusVars st) = players st.
Proof.
  revert statusVars. fix IH 1.
  intros [|key [|value rest]] st; simpl.
  - reflexivity.
  - apply assign_players.
  - rewrite IH. apply assign_players.
Qed.

Lemma parseVars_status (statusVars : list string) :
  forall st, status (parseVars parseInt statusVars st) = status st.
Proof.
  revert statusVars. fix IH 1.
  intros [|key [|value rest]] st; simpl.
  - reflexivity.
  - apply assign_status.
  - rewrite IH. apply assign_status.
Qed.

(** The handler never takes the [catch] branch: every response is parsed. *)
Lemma onMessage_resolves (response : string) :
  exists st, onMessage parseInt response = resolve st /\ status st = "online".
Proof.
  unfold onMessage.
  destruct (split LF response) as [|statusLine playerLines] eqn:E.
  - now apply split_not_empty in E.
  - eexists. split; [reflexivity|]. now rewrite parseVars_status.
Qed.

(** C5: every response is parsed, and the [players] of the result is the
    number of lines after the first one, less one, that is the number of
    newlines of the response less one; a response without a newline gives
    [-1], which is not raised to zero. *)
Theorem players_counts_lines (response : string) :
  exists st,
    onMessage parseInt response = resolve st /\
    players st
      = (Z.of_nat (List.length (tl (split LF response))) - 1)%Z /\
    players st = (Z.of_nat (occurrences LF response) - 1)%Z /\
    (occurrences LF response = 0 -> players st = (-1)%Z).
Proof.
  unfold onMessage.
  pose proof (split_length LF response) as Hlen.
  destruct (split LF response) as [|statusLine playerLines] eqn:E.
  - now apply split_not_empty in E.
  - eexists. split; [reflexivity|].
    rewrite parseVars_players. simpl in *. injection Hlen as Hlen.
    rewrite Hlen. repeat split. intros ->. reflexivity.
Qed.


(** On the captured response, which starts with the line [statusResponse],
    the handler as it is written takes that line for the status line: it has
    no backslash, so no variable is read, and the four lines after it are
    counted as player lines. *)
Lemma captured_parsed :
  onMessage parseInt captured =
    resolve {| status := "online"; players := 3; maxPlayers := Num 32;
               map := Some "unknown"; gametype := Some "unknown" |}.
Proof. reflexivity. Qed.


(** A key at the very end has [undefined] for its value. *)
Example key_without_value :
  onMessage parseInt "x\mapname" =
    resolve {| status := "online"; players := -1; maxPlayers := Num 32;
               map := None; gametype := Some "unknown" |}.
Proof. reflexivity. Qed.


End Parser.


Lemma players_counts_lines_witness :
  exists st,
    onMessage (fun _ => NaN) "statusResponse" = resolve st /\
    players st = (-1)%Z.
Proof.
  destruct (players_counts_lines (fun _ => NaN) "statusResponse")
    as (st & Hst & _ & _ & Hnone).
  exists st. split; [exact Hst|]. apply Hnone. reflexivity.
Defined.

End QueryFacts.

(* ===================================================================== *)
(** * More about [JsMap] *)
(* ===================================================================== *)

Module JsMapMore.
Import JsMap JsMapFacts.

Section Facts.
Context {V : Type}.
Implicit Types (m : JsMap.t V) (k : string) (v : V).

Lemma set_set m k v v' : set k v' (set k v m) = set k v' m.
Proof.
  induction m as [|[k0 v0] rest IH]; simpl.
  - now rewrite String.eqb_refl.
  - destruct (String.eqb k k0) eqn:E; simpl; rewrite E; [reflexivity|].
    now rewrite IH.
Qed.

Lemma get_in_keys m k v : get m k = Some v -> In k (keys m).
Proof.
  induction m as [|[k0 v0] rest IH]; simpl; [discriminate|].
  destruct (String.eqb_spec k k0) as [->|]; [now left|].
  intros H. right. now apply IH.
Qed.

Lemma get_in m k v : get m k = Some v -> In (k, v) m.
Proof.
  induction m as [|[k0 v0] rest IH]; simpl; [discriminate|].
  destruct (String.eqb_spec k k0) as [->|].
  - intros [= ->]. now left.
  - intros H. right. now apply IH.
Qed.

Lemma has_in_keys m k : has m k = true <-> In k (keys m).
Proof.
  unfold has. split.
  - destruct (get m k) eqn:E; [|discriminate]. intros _.
    eapply get_in_keys. eassumption.
  - intros Hin. destruct (get m k) eqn:E; [reflexivity|]. exfalso.
    induction m as [|[k0 v0] rest IH]; simpl in *; [assumption|].
    destruct (String.eqb_spec k k0) as [->|Hne]; [discriminate|].
    destruct Hin as [Heq|Hin]; [congruence | auto].
Qed.

(** The keys after [set]: as before when the key was there, one more at the
    end when it was not. *)
Lemma keys_set m k v :
  keys (set k v m) = if has m k then keys m else keys m ++ [k].
Proof.
  destruct (has m k) eqn:E.
  - apply keys_set_present. now apply has_in_keys.
  - apply keys_set_absent. intros Hin. apply has_in_keys in Hin. congruence.
Qed.

Lemma get_set m k k' v :
  get (set k v m) k' = if String.eqb k' k then Some v else get m k'.
Proof.
  destruct (String.eqb_spec k' k) as [->|Hne].
  - apply get_set_same.
  - apply get_set_other. congruence.
Qed.

(** A property of all values survives [set] of a value that has it, and
    [delete]. *)
Lemma Forall_set (P : V -> Prop) m k v :
  Forall (fun e => P (snd e)) m -> P v ->
  Forall (fun e => P (snd e)) (set k v m).
Proof.
  intros Hm Hv. induction m as [|[k0 v0] rest IH]; simpl.
  - constructor; [assumption|constructor].
  - inversion Hm as [|? ? H0 Hrest]; subst.
    destruct (String.eqb k k0); constructor; auto.
Qed.

Lemma Forall_delete (P : V -> Prop) m k :
  Forall (fun e => P (snd e)) m -> Forall (fun e => P (snd e)) (delete k m).
Proof.
  intros Hm. induction m as [|[k0 v0] rest IH]; simpl; [constructor|].
  inversion Hm as [|? ? H0 Hrest]; subst.
  destruct (String.eqb k k0); [assumption|]. constructor; auto.
Qed.

End Facts.

End JsMapMore.

(* ===================================================================== *)
(** * More about the lobby handlers *)
(* ===================================================================== *)

Module LobbyMore.
Import JsMap JsMapFacts JsMapMore Lobby Terms MoreTerms LobbyFacts.

(** ** Creating *)

(** [createGame] stores the game under its [id], in place of a game that had
    this id (which then keeps its place among the games) or else as the last
    game; every other game and the registry stay as they were, and the one
    event emitted is [gameCreated] with the game. *)
Theorem createGame_stores (s : Server) (gameData : Game) :
  snd (createGame s gameData) = [gameCreated gameData] /\
  (forall k,
     get (activeGames (fst (createGame s gameData))) k
       = if String.eqb k (id gameData) then Some gameData
         else get (activeGames s) k) /\
  keys (activeGames (fst (createGame s gameData)))
    = (if has (activeGames s) (id gameData) then keys (activeGames s)
       else keys (activeGames s) ++ [id gameData]) /\
  connectedUsers (fst (createGame s gameData)) = connectedUsers s.
Proof.
  unfold createGame. simpl. repeat split.
  - intros k. apply get_set.
  - apply keys_set.
Qed.

(** ** Unknown games *)

(** [leaveGame], [toggleReady] and [updateGame] for a game id that is not in
    the store emit nothing and leave the server as it was. *)
Theorem unknown_game_ignored
  (s : Server) (gameId playerId st : string) (ready : bool) :
  get (activeGames s) gameId = None ->
  leaveGame s gameId playerId = (s, []) /\
  toggleReady s gameId playerId ready = (s, []) /\
  updateGame s gameId st = (s, []).
Proof.
  intros H. unfold leaveGame, toggleReady, updateGame. now rewrite H.
Qed.

Lemma unknown_game_ignored_witness :
  leaveGame unready_lobby "g2" "bob" = (unready_lobby, []) /\
  toggleReady unready_lobby "g2" "bob" true = (unready_lobby, []) /\
  updateGame unready_lobby "g2" "In Progress" = (unready_lobby, []).
Proof.
  apply (unknown_game_ignored unready_lobby "g2" "bob" "In Progress" true).
  reflexivity.
Defined.

(** ** Leaving *)

Lemma filter_other_than_gone (playerId : string) (ps : list Participant) :
  existsb (fun p => String.eqb (uid p) playerId) ps = false ->
  filter (other_than playerId) ps = ps.
Proof.
  intros H. apply filter_keeps_all. intros p Hp.
  unfold other_than. apply negb_true_iff.
  destruct (String.eqb (uid p) playerId) eqn:E; [|reflexivity].
  rewrite <- H. symmetry. apply existsb_exists. exists p. auto.
Qed.

Lemma with_games_same (s : Server) : with_games s (activeGames s) = s.
Proof. now destruct s. Qed.

Lemma with_participants_twice (game : Game) (ps ps' : list Participant) :
  with_participants (with_participants game ps) ps' = with_participants game ps'.
Proof. reflexivity. Qed.

(** [leaveGame] for a user who is not among the participants of the game
    changes nothing in the server, and [playerLeft] is emitted all the
    same. *)
Theorem leaveGame_stranger
  (s : Server) (gameId playerId : string) (game : Game) :
  get (activeGames s) gameId = Some game ->
  takes_part playerId game = false ->
  leaveGame s gameId playerId = (s, [playerLeft gameId playerId]).
Proof.
  intros H Hout. unfold leaveGame. rewrite H. cbv zeta.
  rewrite filter_other_than_gone by exact Hout.
  rewrite with_participants_same, set_same_value by assumption.
  now rewrite with_games_same.
Qed.

Lemma leaveGame_stranger_witness :
  leaveGame unready_lobby "g1" "carol"
    = (unready_lobby, [playerLeft "g1" "carol"]).
Proof.
  apply (leaveGame_stranger unready_lobby "g1" "carol"
           (game_of "g1" [alice; bob])); reflexivity.
Defined.

(** [leaveGame] on a game of the store removes every participant with the
    given user id, also one who joined more than once; the others stay, in
    their order, the status stays, and exactly [playerLeft] is emitted. *)
Theorem leaveGame_removes_all
  (s : Server) (gameId playerId : string) (game : Game) :
  get (activeGames s) gameId = Some game ->
  exists game',
    get (activeGames (fst (leaveGame s gameId playerId))) gameId = Some game' /\
    participants game' = filter (other_than playerId) (participants game) /\
    takes_part playerId game' = false /\
    (forall p, In p (participants game) -> uid p <> playerId ->
               In p (participants game')) /\
    status game' = status game /\
    snd (leaveGame s gameId playerId) = [playerLeft gameId playerId].
Proof.
  intros H. unfold leaveGame. rewrite H. simpl.
  eexists. split; [apply get_set_same|]. simpl. repeat split.
  - unfold takes_part. simpl.
    destruct (existsb _ _) eqn:E; [|reflexivity].
    apply existsb_exists in E as (p & Hp & Hu).
    apply filter_In in Hp as [_ Hp]. unfold other_than in Hp.
    now rewrite Hu in Hp.
  - intros p Hp Hne. apply filter_In. split; [assumption|].
    unfold other_than. apply negb_true_iff. now apply String.eqb_neq.
Qed.

Lemma leaveGame_removes_all_witness :
  exists game',
    get (activeGames (fst (leaveGame busy_lobby "g3" "alice"))) "g3"
      = Some game' /\
    participants game'
      = filter (other_than "alice") (participants (game_of "g3" [bob; alice; alice])) /\
    takes_part "alice" game' = false /\
    (forall p, In p (participants (game_of "g3" [bob; alice; alice])) ->
               uid p <> "alice" -> In p (participants game')) /\
    status game' = status (game_of "g3" [bob; alice; alice]) /\
    snd (leaveGame busy_lobby "g3" "alice") = [playerLeft "g3" "alice"].
Proof.
  apply (leaveGame_removes_all busy_lobby "g3" "alice"
           (game_of "g3" [bob; alice; alice])).
  reflexivity.
Defined.

(** A player who is not yet in a game, joins it and leaves it again, leaves
    the server as it was before the two calls. *)
Theorem leave_undoes_join
  (s : Server) (gameId : string) (game : Game) (player : Participant) :
  get (activeGames s) gameId = Some game ->
  takes_part (uid player) game = false ->
  fst (leaveGame (fst (joinGame s gameId player)) gameId (uid player)) = s.
Proof.
  intros H Hout. unfold joinGame. rewrite H. cbv zeta.
  unfold leaveGame. simpl fst. simpl activeGames.
  rewrite get_set_same. cbv zeta. simpl fst.
  rewrite with_participants_twice. simpl participants.
  rewrite filter_app. simpl. unfold other_than at 2. simpl.
  rewrite String.eqb_refl. simpl. rewrite app_nil_r.
  rewrite filter_other_than_gone by exact Hout.
  rewrite set_set, with_participants_same.
  rewrite (set_same_value (activeGames s) gameId game H).
  now destruct s.
Qed.

Lemma leave_undoes_join_witness :
  fst (leaveGame (fst (joinGame empty_lobby "g1" alice)) "g1" (uid alice))
    = empty_lobby.
Proof.
  apply (leave_undoes_join empty_lobby "g1" (game_of "g1" []) alice);
    reflexivity.
Defined.

(** ** Readiness *)

(** [toggleReady] on a game of the store keeps the participants, their
    order, user ids and other properties, and the status; afterwards every
    participant with the given user id has the given flag, and every other
    participant is there as before. *)
Theorem toggleReady_flags
  (s : Server) (gameId playerId : string) (ready : bool) (game : Game) :
  get (activeGames s) gameId = Some game ->
  exists game',
    get (activeGames (fst (toggleReady s gameId playerId ready))) gameId
      = Some game' /\
    List.map uid (participants game') = List.map uid (participants game) /\
    List.map participant_props (participants game')
      = List.map participant_props (participants game) /\
    (forall p, In p (participants game') -> uid p = playerId ->
               isReady p = ready) /\
    (forall p, In p (participants game) -> uid p <> playerId ->
               In p (participants game')) /\
    status game' = status game.
Proof.
  intros H. rewrite (toggleReady_known s gameId playerId ready game H).
  simpl. eexists. split; [apply get_set_same|]. simpl.
  assert (forall p, uid (mark_ready playerId ready p) = uid p) as Huid.
  { intros p. unfold mark_ready. now destruct (String.eqb (uid p) playerId). }
  assert (forall p, participant_props (mark_ready playerId ready p)
                    = participant_props p) as Hprops.
  { intros p. unfold mark_ready. now destruct (String.eqb (uid p) playerId). }
  repeat split.
  - rewrite List.map_map. apply map_ext. exact Huid.
  - rewrite List.map_map. apply map_ext. exact Hprops.
  - intros p Hp Hu. apply in_map_iff in Hp as (q & <- & _).
    rewrite Huid in Hu. unfold mark_ready.
    apply String.eqb_eq in Hu. now rewrite Hu.
  - intros p Hp Hne. apply in_map_iff. exists p. split; [|assumption].
    unfold mark_ready. apply String.eqb_neq in Hne. now rewrite Hne.
Qed.

Lemma toggleReady_flags_witness :
  exists game',
    get (activeGames (fst (toggleReady busy_lobby "g3" "alice" false))) "g3"
      = Some game' /\
    List.map uid (participants game')
      = List.map uid (participants (game_of "g3" [bob; alice; alice])) /\
    List.map participant_props (participants game')
      = List.map participant_props
          (participants (game_of "g3" [bob; alice; alice])) /\
    (forall p, In p (participants game') -> uid p = "alice" ->
               isReady p = false) /\
    (forall p, In p (participants (game_of "g3" [bob; alice; alice])) ->
               uid p <> "alice" -> In p (participants game')) /\
    status game' = status (game_of "g3" [bob; alice; alice]).
Proof.
  apply (toggleReady_flags busy_lobby "g3" "alice" false
           (game_of "g3" [bob; alice; alice])).
  reflexivity.
Defined.

(** When every other participant of the game is ready, [toggleReady] with
    [true] emits [playerReadyChanged] and then [allPlayersReady]. *)
Theorem toggleReady_completes
  (s : Server) (gameId playerId : string) (game : Game) :
  get (activeGames s) gameId = Some game ->
  (forall p, In p (participants game) -> uid p <> playerId ->
             isReady p = true) ->
  snd (toggleReady s gameId playerId true)
    = [playerReadyChanged gameId playerId true; allPlayersReady gameId].
Proof.
  intros H Hothers. rewrite (toggleReady_known s gameId playerId true game H).
  simpl.
  assert (allReady (with_participants game
                      (List.map (mark_ready playerId true) (participants game)))
          = true) as E.
  { unfold allReady. simpl. apply forallb_forall. intros p Hp.
    apply in_map_iff in Hp as (q & <- & Hq). unfold mark_ready.
    destruct (String.eqb_spec (uid q) playerId); [reflexivity|].
    now apply Hothers. }
  now rewrite E.
Qed.

Lemma toggleReady_completes_witness :
  snd (toggleReady unready_lobby "g1" "bob" true)
    = [playerReadyChanged "g1" "bob" true; allPlayersReady "g1"].
Proof.
  apply (toggleReady_completes unready_lobby "g1" "bob"
           (game_of "g1" [alice; bob])).
  - reflexivity.
  - simpl. intros p [<-|[<-|[]]] Hne; [reflexivity|].
    exfalso. apply Hne. reflexivity.
Defined.

(** A participant of the game who calls [toggleReady] with [false] gets
    [playerReadyChanged] and nothing else: [allPlayersReady] is not
    emitted. *)
Theorem toggleReady_withdraws
  (s : Server) (gameId playerId : string) (game : Game) :
  get (activeGames s) gameId = Some game ->
  takes_part playerId game = true ->
  snd (toggleReady s gameId playerId false)
    = [playerReadyChanged gameId playerId false].
Proof.
  intros H Hin. rewrite (toggleReady_known s gameId playerId false game H).
  simpl.
  assert (allReady (with_participants game
                      (List.map (mark_ready playerId false) (participants game)))
          = false) as E.
  { apply allReady_someone. unfold takes_part in Hin.
    apply existsb_exists in Hin as (p & Hp & Hu).
    exists (mark_ready playerId false p). simpl. split.
    - apply in_map. exact Hp.
    - unfold mark_ready. now rewrite Hu. }
  now rewrite E.
Qed.

Lemma toggleReady_withdraws_witness :
  snd (toggleReady unready_lobby "g1" "alice" false)
    = [playerReadyChanged "g1" "alice" false].
Proof.
  apply (toggleReady_withdraws unready_lobby "g1" "alice"
           (game_of "g1" [alice; bob])); reflexivity.
Defined.

(** ** Starting *)

(** Once [toggleReady] has emitted [allPlayersReady] for a game, a request
    to start that game, made next, succeeds. *)
Theorem start_after_allPlayersReady
  (s : Server) (gameId playerId : string) (ready : bool) (game : Game) :
  get (activeGames s) gameId = Some game ->
  In (allPlayersReady gameId) (snd (toggleReady s gameId playerId ready)) ->
  start_succeeds (fst (toggleReady s gameId playerId ready)) gameId.
Proof.
  intros H. rewrite (toggleReady_known s gameId playerId ready game H).
  simpl. set (game' := with_participants game _).
  destruct (allReady game') eqn:E.
  - intros _. unfold start_succeeds.
    rewrite (updateGame_start _ gameId game') by apply get_set_same.
    rewrite E. simpl. exists (with_status game' "In Progress").
    repeat split. apply get_set_same.
  - intros [Habs|[]]. discriminate.
Qed.

Lemma start_after_allPlayersReady_witness :
  start_succeeds (fst (toggleReady unready_lobby "g1" "bob" true)) "g1".
Proof.
  apply (start_after_allPlayersReady unready_lobby "g1" "bob" true
           (game_of "g1" [alice; bob])).
  - reflexivity.
  - right. left. reflexivity.
Defined.

(** A request to start a game in which some participant is not ready emits
    nothing, and the game is stored with the status ['In Progress'] from
    then on, its id, participants and other properties as before; the other
    games are not touched. *)
Theorem refused_start_is_stored
  (s : Server) (gameId : string) (game : Game) :
  get (activeGames s) gameId = Some game ->
  someone_unready game ->
  snd (updateGame s gameId "In Progress") = [] /\
  (exists stored,
     get (activeGames (fst (updateGame s gameId "In Progress"))) gameId
       = Some stored /\
     status stored = "In Progress" /\
     id stored = id game /\
     participants stored = participants game /\
     game_props stored = game_props game /\
     stored = with_status game "In Progress") /\
  (forall k, k <> gameId ->
     get (activeGames (fst (updateGame s gameId "In Progress"))) k
       = get (activeGames s) k).
Proof.
  intros H Hun. rewrite (updateGame_start s gameId game H).
  apply allReady_someone in Hun. rewrite Hun. simpl. repeat split.
  - exists (with_status game "In Progress"). repeat split.
    apply get_set_same.
  - intros k Hne. apply get_set_other. congruence.
Qed.

Lemma refused_start_is_stored_witness :
  snd (updateGame unready_lobby "g1" "In Progress") = [] /\
  (exists stored,
     get (activeGames (fst (updateGame unready_lobby "g1" "In Progress"))) "g1"
       = Some stored /\
     status stored = "In Progress" /\
     id stored = id (game_of "g1" [alice; bob]) /\
     participants stored = participants (game_of "g1" [alice; bob]) /\
     game_props stored = game_props (game_of "g1" [alice; bob]) /\
     stored = with_status (game_of "g1" [alice; bob]) "In Progress") /\
  (forall k, k <> "g1" ->
     get (activeGames (fst (updateGame unready_lobby "g1" "In Progress"))) k
       = get (activeGames unready_lobby) k).
Proof.
  apply (refused_start_is_stored unready_lobby "g1" (game_of "g1" [alice; bob])).
  - reflexivity.
  - exists bob. split; [right; left; reflexivity | reflexivity].
Defined.

(** Right after a player has joined a game, a request to start it emits
    nothing: the player who joined is not ready. *)
Theorem start_after_join_refused
  (s : Server) (gameId : string) (game : Game) (player : Participant) :
  get (activeGames s) gameId = Some game ->
  snd (updateGame (fst (joinGame s gameId player)) gameId "In Progress") = [].
Proof.
  intros H. unfold joinGame. rewrite H. cbv zeta. simpl fst.
  set (game' := with_participants game _).
  rewrite (updateGame_start _ gameId game') by apply get_set_same.
  assert (allReady game' = false) as E.
  { unfold allReady, game'. simpl. rewrite forallb_app. simpl.
    apply andb_false_r. }
  now rewrite E.
Qed.

Lemma start_after_join_refused_witness :
  snd (updateGame (fst (joinGame empty_lobby "g1" alice)) "g1" "In Progress")
    = [].
Proof.
  apply (start_after_join_refused empty_lobby "g1" (game_of "g1" []) alice).
  reflexivity.
Defined.

(** ** What the handlers keep *)

Lemma handle_keeps_status (s : Server) (socket_id : string) (e : Inbound)
  (k : string) :
  well_formed s -> keeps_status e = true ->
  option_map status (get (activeGames (fst (handle s socket_id e))) k)
    = option_map status (get (activeGames s) k).
Proof.
  intros [Hu Hg] He.
  destruct e as [auth|gameData|gameId player|gameId playerId
                |gameId playerId ready|gameId st|]; simpl in *;
    try discriminate.
  - unfold connection. destruct auth as [a|]; [|reflexivity].
    now destruct (String.eqb (auth_uid a) "").
  - unfold joinGame. destruct (get (activeGames s) gameId) eqn:E;
      [|reflexivity]. simpl. rewrite get_set.
    destruct (String.eqb_spec k gameId) as [->|]; [|reflexivity].
    now rewrite E.
  - unfold leaveGame. destruct (get (activeGames s) gameId) eqn:E;
      [|reflexivity]. simpl. rewrite get_set.
    destruct (String.eqb_spec k gameId) as [->|]; [|reflexivity].
    now rewrite E.
  - destruct (get (activeGames s) gameId) as [game|] eqn:E.
    + rewrite (toggleReady_known s gameId playerId ready game E). simpl.
      rewrite get_set.
      destruct (String.eqb_spec k gameId) as [->|]; [|reflexivity].
      now rewrite E.
    + unfold toggleReady. now rewrite E.
  - destruct (get (connectedUsers s) socket_id) as [user|] eqn:E.
    + rewrite (disconnect_registered s socket_id user Hg E). simpl.
      rewrite (get_map_values (without (user_id user))).
      now destruct (get (activeGames s) k).
    + unfold disconnect. now rewrite E.
Qed.

(** Over any run of the event loop without [createGame] and [updateGame],
    whatever is joined, left, toggled or disconnected, every game keeps the
    status it had. *)
Theorem status_only_by_update
  (trace : list (string * Inbound)) (s : Server) (k : string) :
  well_formed s ->
  forallb (fun x => keeps_status (snd x)) trace = true ->
  option_map status (get (activeGames (fst (run s trace))) k)
    = option_map status (get (activeGames s) k).
Proof.
  revert s. induction trace as [|[socket_id e] rest IH]; intros s Hwf Hall.
  - reflexivity.
  - simpl in Hall. apply andb_true_iff in Hall as [He Hrest]. simpl.
    pose proof (handle_well_formed s socket_id e Hwf) as Hwf1.
    pose proof (handle_keeps_status s socket_id e k Hwf He) as Hk.
    destruct (handle s socket_id e) as [s1 out1]. simpl in *.
    specialize (IH s1 Hwf1 Hrest).
    destruct (run s1 rest) as [s2 out2]. simpl in *. congruence.
Qed.

Lemma status_only_by_update_witness :
  option_map status
    (get (activeGames
            (fst (run unready_lobby
                    [("c1", JoinGame "g1" alice);
                     ("c1", ToggleReady "g1" "bob" true);
                     ("c1", LeaveGame "g1" "bob");
                     ("c1", Disconnect)]))) "g1")
    = option_map status (get (activeGames unready_lobby) "g1").
Proof.
  apply (status_only_by_update
           [("c1", JoinGame "g1" alice);
            ("c1", ToggleReady "g1" "bob" true);
            ("c1", LeaveGame "g1" "bob");
            ("c1", Disconnect)] unready_lobby "g1").
  - split; reflexivity.
  - reflexivity.
Defined.

Lemma handle_keys (s : Server) (socket_id : string) (e : Inbound) :
  well_formed s ->
  exists added,
    keys (activeGames (fst (handle s socket_id e)))
      = keys (activeGames s) ++ added /\
    (is_CreateGame e = false -> added = []).
Proof.
  intros [Hu Hg].
  assert (forall gameId game game',
            get (activeGames s) gameId = Some game ->
            keys (set gameId game' (activeGames s)) = keys (activeGames s))
    as Hsame.
  { intros gameId game game' E. apply keys_set_present.
    eapply get_in_keys. eassumption. }
  destruct e as [auth|gameData|gameId player|gameId playerId
                |gameId playerId ready|gameId st|]; simpl.
  - exists []. rewrite app_nil_r. split; [|reflexivity].
    unfold connection. destruct auth as [a|]; [|reflexivity].
    now destruct (String.eqb (auth_uid a) "").
  - rewrite keys_set. destruct (has (activeGames s) (id gameData)).
    + exists []. rewrite app_nil_r. split; [reflexivity|discriminate].
    + exists [id gameData]. split; [reflexivity|discriminate].
  - exists []. rewrite app_nil_r. split; [|reflexivity].
    unfold joinGame. destruct (get (activeGames s) gameId) eqn:E;
      [|reflexivity]. simpl. eapply Hsame. eassumption.
  - exists []. rewrite app_nil_r. split; [|reflexivity].
    unfold leaveGame. destruct (get (activeGames s) gameId) eqn:E;
      [|reflexivity]. simpl. eapply Hsame. eassumption.
  - exists []. rewrite app_nil_r. split; [|reflexivity].
    destruct (get (activeGames s) gameId) as [game|] eqn:E.
    + rewrite (toggleReady_known s gameId playerId ready game E). simpl.
      eapply Hsame. eassumption.
    + unfold toggleReady. now rewrite E.
  - exists []. rewrite app_nil_r. split; [|reflexivity].
    unfold updateGame. destruct (get (activeGames s) gameId) eqn:E;
      [|reflexivity].
    destruct (String.eqb st "In Progress");
      [destruct (negb _)|]; simpl; eapply Hsame; eassumption.
  - exists []. rewrite app_nil_r. split; [|reflexivity].
    destruct (get (connectedUsers s) socket_id) as [user|] eqn:E.
    + rewrite (disconnect_registered s socket_id user Hg E). simpl.
      apply keys_departed.
    + unfold disconnect. now rewrite E.
Qed.

(** No run of the event loop removes a game or changes the order of the
    games: the ids of the games after the run are those before it, in the
    same order, followed by ids that were added; and nothing is added when
    the run has no [createGame]. *)
Theorem games_only_grow (trace : list (string * Inbound)) (s : Server) :
  well_formed s ->
  exists added,
    keys (activeGames (fst (run s trace))) = keys (activeGames s) ++ added /\
    (forallb (fun x => negb (is_CreateGame (snd x))) trace = true ->
     added = []).
Proof.
  revert s. induction trace as [|[socket_id e] rest IH]; intros s Hwf.
  - exists []. simpl. now rewrite app_nil_r.
  - simpl.
    pose proof (handle_well_formed s socket_id e Hwf) as Hwf1.
    destruct (handle_keys s socket_id e Hwf) as (added1 & Hk1 & Hn1).
    destruct (handle s socket_id e) as [s1 out1]. simpl in *.
    destruct (IH s1 Hwf1) as (added2 & Hk2 & Hn2).
    destruct (run s1 rest) as [s2 out2]. simpl in *.
    exists (added1 ++ added2). split.
    + now rewrite Hk2, Hk1, app_assoc.
    + intros Hall. apply andb_true_iff in Hall as [He Hrest].
      apply negb_true_iff in He. now rewrite Hn1, Hn2.
Qed.

Lemma games_only_grow_witness :
  exists added,
    keys (activeGames
            (fst (run busy_lobby
                    [("c1", LeaveGame "g1" "alice"); ("c1", Disconnect)])))
      = keys (activeGames busy_lobby) ++ added /\
    (forallb (fun x => negb (is_CreateGame (snd x)))
       [("c1", LeaveGame "g1" "alice"); ("c1", Disconnect)] = true ->
     added = []).
Proof.
  apply (games_only_grow
           [("c1", LeaveGame "g1" "alice"); ("c1", Disconnect)] busy_lobby).
  split; reflexivity.
Defined.

(** ** The registry *)

Lemma handle_identified (s : Server) (socket_id : string) (e : Inbound) :
  Forall (fun x => identified (snd x)) (connectedUsers s) ->
  Forall (fun x => identified (snd x))
         (connectedUsers (fst (handle s socket_id e))).
Proof.
  intros H.
  destruct e as [auth|gameData|gameId player|gameId playerId
                |gameId playerId ready|gameId st|]; simpl.
  - unfold connection. destruct auth as [a|]; [|assumption].
    destruct (String.eqb_spec (auth_uid a) "") as [|Hid]; [assumption|].
    simpl. apply Forall_set; [assumption|]. split; simpl; [assumption|].
    destruct (displayName a) as [n|]; [|discriminate].
    destruct (String.eqb_spec n ""); [discriminate|assumption].
  - assumption.
  - unfold joinGame. now destruct (get (activeGames s) gameId).
  - unfold leaveGame. now destruct (get (activeGames s) gameId).
  - unfold toggleReady. destruct (get (activeGames s) gameId); [|assumption].
    simpl. now destruct (allReady _).
  - unfold updateGame. destruct (get (activeGames s) gameId); [|assumption].
    simpl. destruct (String.eqb st "In Progress"); [|assumption].
    now destruct (negb _).
  - unfold disconnect.
    destruct (get (connectedUsers s) socket_id) as [user|].
    + destruct (fold_left _ _ _) as [games emitted]. simpl.
      now apply Forall_delete.
    + simpl. now apply Forall_delete.
Qed.

(** Whatever has happened since the server started, every registered
    connection has an identity with a user id that is not empty and a name
    that is not empty (['Anonymous'] when the handshake gave none). *)
Theorem registered_are_identified
  (trace : list (string * Inbound)) (socket_id : string) (user : User) :
  get (connectedUsers (fst (run initial trace))) socket_id = Some user ->
  identified user.
Proof.
  assert (forall s,
            Forall (fun x => identified (snd x)) (connectedUsers s) ->
            Forall (fun x => identified (snd x))
                   (connectedUsers (fst (run s trace)))) as Hrun.
  { induction trace as [|[sid e] rest IH]; intros s H; simpl; [assumption|].
    pose proof (handle_identified s sid e H) as H1.
    destruct (handle s sid e) as [s1 out1]. simpl in H1.
    specialize (IH s1 H1). now destruct (run s1 rest). }
  intros Hget. apply get_in in Hget.
  specialize (Hrun initial (Forall_nil _)).
  rewrite Forall_forall in Hrun. exact (Hrun _ Hget).
Qed.

Lemma registered_are_identified_witness :
  identified {| user_id := "alice"; name := "Anonymous"; email := None;
                avatar := None |}.
Proof.
  apply (registered_are_identified
           [("c1", Connect (Some alice_auth));
            ("c9", Connect None);
            ("c1", CreateGame (game_of "g1" [alice]))] "c1").
  reflexivity.
Defined.

(** ** Disconnecting *)

(** The [disconnect] of a connection that is not registered (its handshake
    was refused, or it has disconnected before) emits nothing and leaves the
    server as it was. *)
Theorem disconnect_unregistered (s : Server) (socket_id : string) :
  get (connectedUsers s) socket_id = None ->
  disconnect s socket_id = (s, []).
Proof.
  intros H. unfold disconnect. rewrite H, get_none_delete by assumption.
  now destruct s.
Qed.

Lemma disconnect_unregistered_witness :
  disconnect busy_lobby "c7" = (busy_lobby, []).
Proof. apply (disconnect_unregistered busy_lobby "c7"). reflexivity. Defined.

(** The [disconnect] of a registered connection emits one [playerLeft] for
    each game its user takes part in, in the order of the games, and nothing
    else; in every game the participants with the user's id are gone and a
    game without such a participant is unchanged; the connection is no
    longer registered, every other connection is as before. *)
Theorem disconnect_leaves_every_game
  (s : Server) (socket_id : string) (user : User) :
  well_formed s ->
  get (connectedUsers s) socket_id = Some user ->
  snd (disconnect s socket_id)
    = List.map (fun gameId => playerLeft gameId (user_id user))
               (sessions_of (user_id user) (activeGames s)) /\
  (forall k,
     get (activeGames (fst (disconnect s socket_id))) k
       = option_map (without (user_id user)) (get (activeGames s) k)) /\
  (forall k game p,
     get (activeGames (fst (disconnect s socket_id))) k = Some game ->
     In p (participants game) -> uid p <> user_id user) /\
  (forall k before p,
     get (activeGames s) k = Some before ->
     In p (participants before) -> uid p <> user_id user ->
     exists game,
       get (activeGames (fst (disconnect s socket_id))) k = Some game /\
       In p (participants game) /\ status game = status before) /\
  (forall k game,
     get (activeGames s) k = Some game ->
     takes_part (user_id user) game = false ->
     get (activeGames (fst (disconnect s socket_id))) k = Some game) /\
  get (connectedUsers (fst (disconnect s socket_id))) socket_id = None /\
  (forall other, other <> socket_id ->
     get (connectedUsers (fst (disconnect s socket_id))) other
       = get (connectedUsers s) other).
Proof.
  intros [Hu Hg] Hreg.
  rewrite (disconnect_registered s socket_id user Hg Hreg). simpl.
  assert (forall k,
            get (List.map (departed (user_id user)) (activeGames s)) k
              = option_map (without (user_id user)) (get (activeGames s) k))
    as Hgames.
  { intros k. apply (get_map_values (without (user_id user))). }
  repeat split.
  - exact Hgames.
  - intros k game p Hk Hp. rewrite Hgames in Hk.
    destruct (get (activeGames s) k) as [before|]; [|discriminate].
    simpl in Hk. injection Hk as <-. eapply without_gone. eassumption.
  - intros k before p Hk Hp Hne. rewrite Hgames, Hk. simpl.
    eexists. split; [reflexivity|]. split; [|reflexivity].
    simpl. apply filter_In. split; [assumption|].
    unfold other_than. apply negb_true_iff. now apply String.eqb_neq.
  - intros k game Hk Hout. rewrite Hgames, Hk. simpl.
    now rewrite without_stranger.
  - now apply get_delete_same.
  - intros other Hne. apply get_delete_other. congruence.
Qed.

Lemma disconnect_leaves_every_game_witness :
  snd (disconnect busy_lobby "c1")
    = List.map (fun gameId => playerLeft gameId "alice")
               (sessions_of "alice" (activeGames busy_lobby)) /\
  (forall k,
     get (activeGames (fst (disconnect busy_lobby "c1"))) k
       = option_map (without "alice") (get (activeGames busy_lobby) k)) /\
  (forall k game p,
     get (activeGames (fst (disconnect busy_lobby "c1"))) k = Some game ->
     In p (participants game) -> uid p <> "alice") /\
  (forall k before p,
     get (activeGames busy_lobby) k = Some before ->
     In p (participants before) -> uid p <> "alice" ->
     exists game,
       get (activeGames (fst (disconnect busy_lobby "c1"))) k = Some game /\
       In p (participants game) /\ status game = status before) /\
  (forall k game,
     get (activeGames busy_lobby) k = Some game ->
     takes_part "alice" game = false ->
     get (activeGames (fst (disconnect busy_lobby "c1"))) k = Some game) /\
  get (connectedUsers (fst (disconnect busy_lobby "c1"))) "c1" = None /\
  (forall other, other <> "c1" ->
     get (connectedUsers (fst (disconnect busy_lobby "c1"))) other
       = get (connectedUsers busy_lobby) other).
Proof.
  apply (disconnect_leaves_every_game busy_lobby "c1"
           {| user_id := "alice"; name := "Anonymous"; email := None;
              avatar := None |}).
  - split; reflexivity.
  - reflexivity.
Defined.

(** When a user is connected twice, the [disconnect] of one of the two
    connections takes the user out of every game, although the other
    connection stays registered. *)
Theorem disconnect_one_of_two
  (s : Server) (socket_id other : string) (user user' : User) :
  well_formed s ->
  other <> socket_id ->
  get (connectedUsers s) socket_id = Some user ->
  get (connectedUsers s) other = Some user' ->
  user_id user' = user_id user ->
  get (connectedUsers (fst (disconnect s socket_id))) other = Some user' /\
  (forall k game p,
     get (activeGames (fst (disconnect s socket_id))) k = Some game ->
     In p (participants game) -> uid p <> user_id user').
Proof.
  intros [Hu Hg] Hne Hreg Hother Hsame.
  rewrite (disconnect_registered s socket_id user Hg Hreg). simpl. split.
  - rewrite get_delete_other by congruence. exact Hother.
  - intros k game p Hk Hp.
    rewrite (get_map_values (without (user_id user))) in Hk.
    destruct (get (activeGames s) k) as [before|]; [|discriminate].
    simpl in Hk. injection Hk as <-. rewrite Hsame.
    eapply without_gone. eassumption.
Qed.

Lemma disconnect_one_of_two_witness :
  get (connectedUsers (fst (disconnect twice_connected "c1"))) "c2"
    = Some {| user_id := "alice"; name := "Anonymous"; email := None;
              avatar := None |} /\
  (forall k game p,
     get (activeGames (fst (disconnect twice_connected "c1"))) k = Some game ->
     In p (participants game) -> uid p <> "alice").
Proof.
  apply (disconnect_one_of_two twice_connected "c1" "c2"
           {| user_id := "alice"; name := "Anonymous"; email := None;
              avatar := None |}
           {| user_id := "alice"; name := "Anonymous"; email := None;
              avatar := None |}).
  - split; reflexivity.
  - discriminate.
  - reflexivity.
  - reflexivity.
  - reflexivity.
Defined.

End LobbyMore.


(* ===================================================================== *)
(** * More about the parser *)
(* ===================================================================== *)

Module QueryMore.
Import Query MoreTerms QueryFacts.

(** ** Splitting *)

Lemma join_cons (sep : ascii) (piece : string) (pieces : list string) :
  pieces <> [] ->
  join sep (piece :: pieces)
    = (piece ++ String sep (join sep pieces))%string.
Proof.
  unfold join. destruct pieces as [|p ps]; [congruence|]. reflexivity.
Qed.

Lemma split_clean (sep : ascii) (piece : string) :
  contains sep piece = false -> split sep piece = [piece].
Proof.
  unfold contains. induction piece as [|c rest IH]; simpl; [reflexivity|].
  rewrite Ascii.eqb_sym. destruct (Ascii.eqb c sep); simpl; [discriminate|].
  intros H. now rewrite IH.
Qed.

Lemma split_app (sep : ascii) (piece rest : string) :
  contains sep piece = false ->
  split sep (piece ++ String sep rest) = piece :: split sep rest.
Proof.
  unfold contains. induction piece as [|c more IH]; simpl.
  - now rewrite Ascii.eqb_refl.
  - rewrite Ascii.eqb_sym. destruct (Ascii.eqb c sep); simpl; [discriminate|].
    intros H. now rewrite IH.
Qed.

(** [split] and [join] undo each other: joining the pieces of a text gives
    the text back, no piece holds the separator, and splitting the join of
    pieces without separator (at least one piece) gives these pieces. *)
Theorem split_join (sep : ascii) :
  (forall s, join sep (split sep s) = s) /\
  (forall s piece, In piece (split sep s) -> contains sep piece = false) /\
  (forall piece pieces,
     Forall (fun p => contains sep p = false) (piece :: pieces) ->
     split sep (join sep (piece :: pieces)) = piece :: pieces).
Proof.
  repeat split.
  - induction s as [|c rest IH]; simpl; [reflexivity|].
    destruct (Ascii.eqb_spec c sep) as [->|Hne].
    + rewrite join_cons by apply split_not_empty. simpl. now rewrite IH.
    + destruct (split sep rest) as [|piece pieces] eqn:E.
      * now apply split_not_empty in E.
      * rewrite <- IH. destruct pieces as [|p ps]; [reflexivity|].
        rewrite !join_cons by discriminate. reflexivity.
  - induction s as [|c rest IH]; simpl; intros piece Hin.
    + destruct Hin as [<-|[]]. reflexivity.
    + destruct (Ascii.eqb_spec c sep) as [->|Hne].
      * destruct Hin as [<-|Hin]; [reflexivity | auto].
      * destruct (split sep rest) as [|p ps] eqn:E.
        -- destruct Hin as [<-|[]]. unfold contains. simpl.
           apply Ascii.eqb_neq in Hne. rewrite Ascii.eqb_sym, Hne. reflexivity.
        -- destruct Hin as [<-|Hin].
           ++ unfold contains. simpl.
              apply Ascii.eqb_neq in Hne. rewrite Ascii.eqb_sym, Hne. simpl.
              apply (IH p). now left.
           ++ apply IH. now right.
  - intros piece pieces. revert piece.
    induction pieces as [|p ps IH]; intros piece Hall.
    + inversion Hall; subst. unfold join. simpl. now apply split_clean.
    + inversion Hall as [|? ? Hp Hrest]; subst.
      rewrite join_cons by discriminate.
      rewrite split_app by assumption. now rewrite IH.
Qed.

Lemma split_join_witness :
  split "," (join "," ["a"; ""; "b c"]) = ["a"; ""; "b c"].
Proof.
  apply (split_join ","). repeat constructor.
Defined.

Section Parser.

Variable parseInt : option string -> number.

(** Whatever the datagram holds, the [message] handler resolves, never
    rejects: the status is ['online'] and [players] is [-1] or more; the
    empty datagram gives [-1] players and the defaults. *)
Theorem every_datagram_online (response : string) :
  (exists st,
     onMessage parseInt response = resolve st /\
     status st = "online" /\ (-1 <= players st)%Z) /\
  onMessage parseInt "" =
    resolve {| status := "online"; players := (-1)%Z; maxPlayers := Num 32;
               map := Some "unknown"; gametype := Some "unknown" |}.
Proof.
  split; [|reflexivity]. unfold onMessage.
  destruct (split LF response) as [|statusLine playerLines] eqn:E.
  - now apply split_not_empty in E.
  - eexists. split; [reflexivity|].
    rewrite parseVars_status, parseVars_players. simpl. split; [reflexivity|].
    lia.
Qed.

(** ** The status variables *)

Lemma assign_unknown (key : string) (value : option string) (st : Status) :
  known_key key = false -> assign parseInt key value st = st.
Proof.
  unfold known_key, assign. intros H.
  apply orb_false_iff in H as [H Hg]. apply orb_false_iff in H as [Hs Hm].
  now rewrite Hs, Hm, Hg.
Qed.

Lemma parseVars_unknown (n : nat) :
  forall statusVars st,
    List.length statusVars <= n ->
    (forall key, In key (keys_of statusVars) -> known_key key = false) ->
    parseVars parseInt statusVars st = st.
Proof.
  induction n as [|n IH]; intros [|key [|value rest]] st Hlen Hkeys;
    simpl in *; try reflexivity; try lia.
  - apply assign_unknown. apply Hkeys. now left.
  - rewrite IH; [| lia | intros k Hk; apply Hkeys; now right].
    apply assign_unknown. apply Hkeys. now left.
Qed.

(** A response whose status variables have none of the keys
    [sv_maxclients], [mapname], [g_gametype] is resolved with the defaults:
    32 players at most, map and game type ["unknown"]; so is, in particular,
    a response whose first line has no backslash. *)
Theorem unknown_keys_ignored (response : string) :
  (forall key,
     In key (keys_of (tl (split backslash (hd EmptyString (split LF response)))))
     -> known_key key = false) ->
  onMessage parseInt response =
    resolve {| status := "online";
               players := (Z.of_nat (occurrences LF response) - 1)%Z;
               maxPlayers := Num 32;
               map := Some "unknown";
               gametype := Some "unknown" |}.
Proof.
  unfold onMessage. pose proof (split_length LF response) as Hlen.
  destruct (split LF response) as [|statusLine playerLines] eqn:E.
  - now apply split_not_empty in E.
  - simpl. intros Hkeys. simpl in Hlen. injection Hlen as Hlen.
    rewrite (parseVars_unknown (List.length (tl (split backslash statusLine))))
      by auto.
    now rewrite Hlen.
Qed.

(** The loop takes the variables two by two. *)
Lemma parseVars_app (n : nat) :
  forall front back st,
    List.length front = 2 * n ->
    parseVars parseInt (front ++ back) st
      = parseVars parseInt back (parseVars parseInt front st).
Proof.
  induction n as [|n IH]; intros front back st Hlen.
  - destruct front; [reflexivity|discriminate].
  - destruct front as [|key [|value rest]]; simpl in Hlen; try lia.
    change ((key :: value :: rest) ++ back)
      with (key :: value :: (rest ++ back)).
    cbn [parseVars]. apply IH. lia.
Qed.

(** When a key occurs more than once, its last value is the one that is
    kept: whatever pairs come before, a final pair sets its field. *)
Theorem last_value_wins (n : nat) (front : list string) (value : string)
  (st : Status) :
  List.length front = 2 * n ->
  map (parseVars parseInt (front ++ ["mapname"; value]) st) = Some value /\
  gametype (parseVars parseInt (front ++ ["g_gametype"; value]) st)
    = Some value /\
  maxPlayers (parseVars parseInt (front ++ ["sv_maxclients"; value]) st)
    = parseInt (Some value).
Proof.
  intros Hlen. rewrite !(parseVars_app n) by assumption. repeat split.
Qed.

(** A key that is the last token, with no value after it, is given
    [undefined]: [map] and [gametype] lose their default ["unknown"], and
    [maxPlayers] becomes what [parseInt] makes of [undefined]. *)
Theorem last_key_undefined (n : nat) (front : list string) (st : Status) :
  List.length front = 2 * n ->
  map (parseVars parseInt (front ++ ["mapname"]) st) = None /\
  gametype (parseVars parseInt (front ++ ["g_gametype"]) st) = None /\
  maxPlayers (parseVars parseInt (front ++ ["sv_maxclients"]) st)
    = parseInt None.
Proof.
  intros Hlen. rewrite !(parseVars_app n) by assumption. repeat split.
Qed.

End Parser.

Lemma unknown_keys_ignored_witness :
  onMessage (fun _ => NaN) "statusResponse\hostname\arena\clients\4" =
    resolve {| status := "online"; players := (-1)%Z; maxPlayers := Num 32;
               map := Some "unknown"; gametype := Some "unknown" |}.
Proof.
  apply (unknown_keys_ignored (fun _ => NaN)
           "statusResponse\hostname\arena\clients\4").
  simpl. intros key [<-|[<-|[]]]; reflexivity.
Defined.

Lemma last_value_wins_witness :
  map (parseVars (fun _ => NaN) (["mapname"; "dm1"] ++ ["mapname"; "dm2"])
         {| status := "online"; players := 0; maxPlayers := Num 32;
            map := Some "unknown"; gametype := Some "unknown" |})
    = Some "dm2".
Proof.
  apply (last_value_wins (fun _ => NaN) 1 ["mapname"; "dm1"] "dm2").
  reflexivity.
Defined.

Lemma last_key_undefined_witness :
  map (parseVars (fun _ => NaN) (["sv_maxclients"; "8"] ++ ["mapname"])
         {| status := "online"; players := 0; maxPlayers := Num 32;
            map := Some "unknown"; gametype := Some "unknown" |})
    = None.
Proof.
  apply (last_key_undefined (fun _ => NaN) 1 ["sv_maxclients"; "8"]).
  reflexivity.
Defined.

End QueryMore.

(* ===================================================================== *)
(** * Settling the query, and the route *)
(* ===================================================================== *)

Module RouteFacts.
Import Query Channel Route QueryFacts.

Section Handlers.

Variable parseInt : option string -> number.

Lemma on_incident_settled (c : Call) (i : Incident) (r : Settled) :
  outcome c = Some r ->
  outcome (on_incident parseInt c i) = Some r /\
  closes (on_incident parseInt c i) = S (closes c).
Proof.
  intros H. destruct i; simpl; unfold settle; simpl; rewrite H; simpl; auto.
Qed.

Lemma incidents_settled (incidents : list Incident) :
  forall c r,
    outcome c = Some r ->
    outcome (fold_left (on_incident parseInt) incidents c) = Some r /\
    closes (fold_left (on_incident parseInt) incidents c)
      = List.length incidents + closes c.
Proof.
  induction incidents as [|i rest IH]; intros c r H; simpl; [auto|].
  destruct (on_incident_settled c i r H) as [Ho Hc].
  destruct (IH _ r Ho) as [Ho' Hc']. split; [assumption|].
  rewrite Hc', Hc. lia.
Qed.

(** The first incident of a call decides how its promise settles: a message
    with what the parser makes of it, an error with that error, the timer
    with ['Timeout']; whatever comes later changes nothing of it.  Each
    incident, the later ones too, calls [client.close()] once. *)
Theorem first_incident_decides (i : Incident) (later : list Incident) :
  outcome (after parseInt (i :: later)) = Some (verdict parseInt i) /\
  closes (after parseInt (i :: later)) = S (List.length later).
Proof.
  unfold after. simpl.
  assert (outcome (on_incident parseInt pending i) = Some (verdict parseInt i)
          /\ closes (on_incident parseInt pending i) = 1) as [Ho Hc].
  { destruct i; simpl; auto. }
  destruct (incidents_settled later _ _ Ho) as [Ho' Hc'].
  split; [assumption|]. rewrite Hc', Hc. lia.
Qed.

(** The route queries the game server exactly when the address and the port
    are not empty and [parseInt] reads the port as an integer from 1 to
    65535; the datagram is then the probe for that address and port. *)
Theorem request_queries_iff (ip port : string) (d : Datagram) :
  serverStatus_request parseInt ip port = queried d <->
  ip <> "" /\ port <> "" /\
  exists z, parseInt (Some port) = Num z /\ (1 <= z <= 65535)%Z /\
            d = probe ip (Z.to_N z).
Proof.
  unfold serverStatus_request.
  destruct (String.eqb_spec ip "") as [->|Hip]; simpl.
  - split; [discriminate|]. intros [H _]. congruence.
  - destruct (String.eqb_spec port "") as [->|Hport]; simpl.
    + split; [discriminate|]. intros (_ & H & _). congruence.
    + destruct (parseInt (Some port)) as [|negative|z] eqn:E; simpl.
      * split; [discriminate|]. intros (_ & _ & z & H & _). discriminate.
      * split; [destruct negative; discriminate|].
        intros (_ & _ & z & H & _). discriminate.
      * destruct (Z.leb_spec z 0) as [Hle|Hgt]; simpl.
        -- split; [discriminate|]. intros (_ & _ & z' & [= <-] & Hr & _). lia.
        -- unfold Z.gtb. destruct (Z.compare_spec z 65535) as [Heq|Hlt|Hbig].
           ++ split.
              ** intros [= <-]. repeat split; auto. exists z.
                 repeat split; auto; lia.
              ** intros (_ & _ & z' & [= <-] & _ & ->). reflexivity.
           ++ split.
              ** intros [= <-]. repeat split; auto. exists z.
                 repeat split; auto; lia.
              ** intros (_ & _ & z' & [= <-] & _ & ->). reflexivity.
           ++ split; [discriminate|].
              intros (_ & _ & z' & [= <-] & Hr & _). lia.
Qed.

(** When the route does not query, it replies 400 with status ['error'], no
    players and 32 players at most; a datagram it sends is the 13 bytes of
    the probe and goes to a port from 1 to 65535. *)
Theorem request_refused_or_probe (ip port : string) :
  match serverStatus_request parseInt ip port with
  | replied r =>
      code r = 400 /\
      exists err, body r = failure_json "error" 0 32 err
  | queried d =>
      payload d = [0xFF; 0xFF; 0xFF; 0xFF]%N ++ code_units "getstatus" /\
      to_address d = ip /\
      (1 <= to_port d <= 65535)%N
  end.
Proof.
  unfold serverStatus_request.
  destruct (String.eqb ip "" || String.eqb port ""); [simpl; eauto|].
  destruct (parseInt (Some port)) as [|negative|z]; simpl; eauto.
  - destruct negative; simpl; eauto.
  - destruct (Z.leb_spec z 0) as [Hle|Hgt]; simpl; eauto.
    unfold Z.gtb. destruct (Z.compare_spec z 65535); simpl; eauto;
      repeat split; lia.
Qed.

(** The reply of the route, once the promise has settled, goes by the first
    incident: for a message, whatever its content, 200 with what the parser
    made of it, status ['online']; for an error 500 with status ['offline'],
    no players, 32 players at most and the message of the error; for the
    timer the same with the message ['Timeout']. *)
Theorem reply_by_first_incident (i : Incident) (later : list Incident) :
  exists r,
    option_map serverStatus_reply (outcome (after parseInt (i :: later)))
      = Some r /\
    match i with
    | message msg =>
        code r = 200 /\
        exists st, body r = status_json st /\ status st = "online" /\
                   onMessage parseInt msg = resolve st
    | error err =>
        r = {| code := 500; body := failure_json "offline" 0 32 err |}
    | timer =>
        r = {| code := 500; body := failure_json "offline" 0 32 "Timeout" |}
    end.
Proof.
  unfold after. simpl.
  assert (outcome (on_incident parseInt pending i) = Some (verdict parseInt i))
    as Ho by (destruct i; reflexivity).
  destruct (incidents_settled later _ _ Ho) as [Ho' _]. rewrite Ho'. simpl.
  eexists. split; [reflexivity|].
  destruct i as [msg|err|]; simpl; try reflexivity.
  destruct (onMessage_resolves parseInt msg) as (st & Hst & Honline).
  rewrite Hst. simpl. eauto.
Qed.

End Handlers.

Lemma request_queries_iff_witness :
  serverStatus_request (fun _ => Num 27960) "10.0.0.7" "27960"
    = queried (probe "10.0.0.7" 27960).
Proof.
  apply (request_queries_iff (fun _ => Num 27960) "10.0.0.7" "27960").
  repeat split; try discriminate.
  exists 27960%Z. repeat split; lia.
Defined.

End RouteFacts.

(* ===================================================================== *)
(** * The credentials *)
(* ===================================================================== *)

Module StartupFacts.
Import Query Startup.

(** The character a text starts with is an [n]. *)
Lemma unescape_head (s : string) :
  match unescape_newlines s with
  | String c _ => Ascii.eqb c "n"%char
  | EmptyString => false
  end
  = match s with
    | String c _ => Ascii.eqb c "n"%char
    | EmptyString => false
    end.
Proof.
  destruct s as [|c [|c' rest]]; simpl; try reflexivity.
  destruct (Ascii.eqb_spec c backslash) as [->|]; simpl; [|reflexivity].
  destruct (Ascii.eqb c' "n"); reflexivity.
Qed.

Lemma unescape_clean (n : nat) :
  forall s, String.length s <= n ->
            escaped_newline (unescape_newlines s) = false.
Proof.
  induction n as [|n IH]; intros [|c [|c' rest]] Hlen;
    try reflexivity; simpl in Hlen; try lia.
  change (unescape_newlines (String c (String c' rest)))
    with (if Ascii.eqb c backslash && Ascii.eqb c' "n"
          then String LF (unescape_newlines rest)
          else String c (unescape_newlines (String c' rest))).
  destruct (Ascii.eqb c backslash && Ascii.eqb c' "n") eqn:C.
  - assert (escaped_newline (unescape_newlines rest) = false) as Hrest
        by (apply IH; lia).
    destruct (unescape_newlines rest) as [|c'' t']; [reflexivity|].
    exact Hrest.
  - assert (escaped_newline (unescape_newlines (String c' rest)) = false)
      as Hrest by (apply IH; simpl; lia).
    pose proof (unescape_head (String c' rest)) as Hhead.
    destruct (unescape_newlines (String c' rest)) as [|c'' t'];
      [reflexivity|].
    change ((Ascii.eqb c backslash && Ascii.eqb c'' "n")
            || escaped_newline (String c'' t') = false).
    rewrite Hrest, Hhead, C. reflexivity.
Qed.

Lemma unescape_nothing (n : nat) :
  forall s, String.length s <= n ->
            escaped_newline s = false -> unescape_newlines s = s.
Proof.
  induction n as [|n IH]; intros [|c [|c' rest]] Hlen H;
    try reflexivity; simpl in Hlen; try lia.
  change ((Ascii.eqb c backslash && Ascii.eqb c' "n")
          || escaped_newline (String c' rest) = false) in H.
  apply orb_false_iff in H as [C Hrest].
  change (unescape_newlines (String c (String c' rest)))
    with (if Ascii.eqb c backslash && Ascii.eqb c' "n"
          then String LF (unescape_newlines rest)
          else String c (unescape_newlines (String c' rest))).
  rewrite C. f_equal. apply IH; [simpl; lia | exact Hrest].
Qed.

(** After the replacement of the private key no backslash followed by [n]
    is left, so that a second replacement changes nothing; a key without
    such a pair is kept as it is. *)
Theorem unescape_newlines_complete (s : string) :
  escaped_newline (unescape_newlines s) = false /\
  unescape_newlines (unescape_newlines s) = unescape_newlines s /\
  (escaped_newline s = false -> unescape_newlines s = s).
Proof.
  assert (escaped_newline (unescape_newlines s) = false) as H
      by (apply (unescape_clean (String.length s)); lia).
  repeat split.
  - exact H.
  - apply (unescape_nothing (String.length (unescape_newlines s))); [lia|exact H].
  - apply (unescape_nothing (String.length s)). lia.
Qed.

Lemma unescape_newlines_complete_witness :
  unescape_newlines "-----BEGIN-----" = "-----BEGIN-----".
Proof.
  apply (unescape_newlines_complete "-----BEGIN-----"). reflexivity.
Defined.

Section Config.

Variable Credential : Type.
Variable cert : ServiceAccount -> Credential + string.

(** [getFirebaseConfig] returns a configuration only when the private key,
    the project id and the client e-mail are all set and not empty and
    [admin.credential.cert] has made a credential of them, the private key
    being given to it with no backslash followed by [n] left; the database
    URL is then made of the project id.  Otherwise it throws: ['Missing
    required Firebase credentials'] when one of the three is unset or
    empty, without calling [cert], and else the error [cert] threw. *)
Theorem getFirebaseConfig_complete (env : Env) :
  match getFirebaseConfig Credential cert env with
  | inl config =>
      exists key project client,
        FIREBASE_PRIVATE_KEY env = Some key /\ key <> "" /\
        FIREBASE_PROJECT_ID env = Some project /\ project <> "" /\
        FIREBASE_CLIENT_EMAIL env = Some client /\ client <> "" /\
        cert {| projectId := project; clientEmail := client;
                privateKey := unescape_newlines key |}
          = inl (credential Credential config) /\
        escaped_newline (unescape_newlines key) = false /\
        databaseURL Credential config
          = ("https://" ++ project ++ ".firebaseio.com")%string
  | inr err =>
      (err = "Missing required Firebase credentials" /\
       (FIREBASE_PRIVATE_KEY env = None \/ FIREBASE_PRIVATE_KEY env = Some "" \/
        FIREBASE_PROJECT_ID env = None \/ FIREBASE_PROJECT_ID env = Some "" \/
        FIREBASE_CLIENT_EMAIL env = None \/
        FIREBASE_CLIENT_EMAIL env = Some ""))
      \/
      (exists key project client,
         FIREBASE_PRIVATE_KEY env = Some key /\ key <> "" /\
         FIREBASE_PROJECT_ID env = Some project /\ project <> "" /\
         FIREBASE_CLIENT_EMAIL env = Some client /\ client <> "" /\
         cert {| projectId := project; clientEmail := client;
                 privateKey := unescape_newlines key |} = inr err)
  end.
Proof.
  unfold getFirebaseConfig.
  destruct (FIREBASE_PRIVATE_KEY env) as [key|]; [|left; split; auto].
  destruct (FIREBASE_PROJECT_ID env) as [project|]; [|left; split; auto].
  destruct (FIREBASE_CLIENT_EMAIL env) as [client|]; [|left; split; auto 6].
  destruct (String.eqb_spec key "") as [->|Hkey]; simpl;
    [left; split; auto|].
  destruct (String.eqb_spec project "") as [->|Hproject]; simpl;
    [left; split; auto 6|].
  destruct (String.eqb_spec client "") as [->|Hclient]; simpl;
    [left; split; auto 8|].
  destruct (cert _) as [made|err] eqn:E.
  - exists key, project, client. simpl. repeat split; auto.
    apply (unescape_clean (String.length key)). lia.
  - right. exists key, project, client. repeat split; auto.
Qed.

End Config.

End StartupFacts.
